(** * fakeredis streams: the entry log and its consumer groups

    A shallow embedding of [fakeredis/_stream.py]: entry keys, the ordered
    entry log [XStream] and the consumer groups [StreamGroup] reading from
    it, followed by the properties of the log that its description states.

    Python integers are unbounded and are modelled by [Z].  A [bytes]
    value is the list of its bytes; a [str] is the list of its code points,
    for strings whose code points are below 256.  [bytes.decode()] is the
    identity on ASCII bytes and raises on any other byte (multi-byte UTF-8
    sequences are not decoded).  A raised exception is an explicit outcome
    ([Raise]); a method that mutates its object returns the new state next
    to its outcome, so the state reached when an exception interrupts a
    loop is kept. *)

From Stdlib Require Import ZArith Ascii String List Bool Lia.
Import ListNotations.
Local Open Scope Z_scope.

(** ** Python primitives used by the module *)

Module Py.

Definition text := list ascii.

Definition lit (s : string) : text := list_ascii_of_string s.

(** A key argument is typed [Union[bytes, str]]; the two are different
    values in Python 3 (['$' == b'$'] is false), so the tag is kept. *)
Inductive pystr :=
| PyBytes (b : text)
| PyStr (s : text).

Inductive exn := ValueError | IndexError | KeyError | TypeError | AssertionError.

Inductive result (A : Type) :=
| Ok (a : A)
| Raise (e : exn).
Arguments Ok {A} a.
Arguments Raise {A} e.

Definition bind {A B} (r : result A) (k : A -> result B) : result B :=
  match r with
  | Ok a => k a
  | Raise e => Raise e
  end.

Definition ord (c : ascii) : Z := Z.of_N (N_of_ascii c).
Definition chr (n : Z) : ascii := ascii_of_N (Z.to_N n).

Definition is_digit (c : ascii) : bool := (48 <=? ord c) && (ord c <=? 57).
Definition digit_val (c : ascii) : Z := ord c - 48.

(** Code points below 256 that [str.isspace] accepts. *)
Definition is_space (c : ascii) : bool :=
  ((9 <=? ord c) && (ord c <=? 13)) || ((28 <=? ord c) && (ord c <=? 32))
  || (ord c =? 133) || (ord c =? 160).

Fixpoint lstrip (s : text) : text :=
  match s with
  | c :: r => if is_space c then lstrip r else s
  | [] => []
  end.

Fixpoint rstrip (s : text) : text :=
  match s with
  | [] => []
  | c :: r =>
      match rstrip r with
      | [] => if is_space c then [] else [c]
      | r' => c :: r'
      end
  end.

Definition strip (s : text) : text := rstrip (lstrip s).

(** The digits of a base-10 literal: decimal digits, single underscores
    allowed between two digits.  [prev] tells whether the previous
    character was a digit. *)
Fixpoint int_digits (acc : Z) (prev : bool) (s : text) : option Z :=
  match s with
  | [] => if prev then Some acc else None
  | c :: r =>
      if is_digit c then int_digits (10 * acc + digit_val c) true r
      else if Ascii.eqb c "_" && prev then int_digits acc false r
      else None
  end.

(** [int(s)] for a [str] argument, base 10: surrounding whitespace is
    dropped, one sign is allowed, anything else raises [ValueError].  The
    interpreter's configurable cap on the number of digits is not
    modelled. *)
Definition int (s : text) : result Z :=
  let s1 := strip s in
  let '(neg, s2) :=
    match s1 with
    | c :: r =>
        if Ascii.eqb c "+" then (false, r)
        else if Ascii.eqb c "-" then (true, r)
        else (false, s1)
    | [] => (false, s1)
    end in
  match int_digits 0 false s2 with
  | Some n => Ok (if neg then - n else n)
  | None => Raise ValueError
  end.

(** [str(n)] for an integer: decimal digits, most significant first. *)
Fixpoint digits_loop (fuel : nat) (n : Z) (acc : text) : text :=
  match fuel with
  | O => acc
  | S f =>
      let acc' := chr (48 + n mod 10) :: acc in
      if n / 10 =? 0 then acc' else digits_loop f (n / 10) acc'
  end.

Definition digits_of (n : Z) : text :=
  digits_loop (S (Z.to_nat (Z.log2 n))) n [].

Definition str_of_int (n : Z) : text :=
  if n <? 0 then "-"%char :: digits_of (- n) else digits_of n.

(** [s.split('-')]: always at least one component. *)
Fixpoint split_dash (s : text) : list text :=
  match s with
  | [] => [[]]
  | c :: r =>
      if Ascii.eqb c "-" then [] :: split_dash r
      else match split_dash r with
           | h :: t => (c :: h) :: t
           | [] => [[c]]
           end
  end.

(** [l[i]] for an integer index: negative indices count from the end. *)
Definition index {A} (l : list A) (i : Z) : result A :=
  let n := Z.of_nat (length l) in
  let j := if i <? 0 then i + n else i in
  if (0 <=? j) && (j <? n)
  then match nth_error l (Z.to_nat j) with
       | Some a => Ok a
       | None => Raise IndexError
       end
  else Raise IndexError.

(** A slice bound, normalised as [slice.indices] does for step 1. *)
Definition clamp_bound (n i : Z) : Z :=
  if i <? 0 then Z.max (i + n) 0 else Z.min i n.

(** [l[lo:hi]] *)
Definition slice {A} (l : list A) (lo hi : Z) : list A :=
  let n := Z.of_nat (length l) in
  let a := clamp_bound n lo in
  let b := clamp_bound n hi in
  firstn (Z.to_nat (b - a)) (skipn (Z.to_nat a) l).

(** [l[lo:]] *)
Definition slice_from {A} (l : list A) (lo : Z) : list A :=
  skipn (Z.to_nat (clamp_bound (Z.of_nat (length l)) lo)) l.

(** [del l[i]] for an index already known to be in range. *)
Fixpoint remove_nth {A} (n : nat) (l : list A) : list A :=
  match l with
  | [] => []
  | a :: r => match n with O => r | S m => a :: remove_nth m r end
  end.

Definition del_index {A} (l : list A) (i : Z) : result (list A) :=
  let n := Z.of_nat (length l) in
  let j := if i <? 0 then i + n else i in
  if (0 <=? j) && (j <? n) then Ok (remove_nth (Z.to_nat j) l)
  else Raise IndexError.

(** [bisect.bisect_left(a, x)] and [bisect.bisect_right(a, x)] of the
    standard library, for a list compared with [ltb].  The loop runs while
    [lo < hi]; [hi - lo] shrinks at every turn, so [length a] turns are
    enough. *)
Fixpoint bisect_left_loop {A} (ltb : A -> A -> bool) (fuel : nat)
    (a : list A) (x : A) (lo hi : Z) : Z :=
  match fuel with
  | O => lo
  | S f =>
      if lo <? hi then
        let mid := (lo + hi) / 2 in
        if ltb (nth (Z.to_nat mid) a x) x
        then bisect_left_loop ltb f a x (mid + 1) hi
        else bisect_left_loop ltb f a x lo mid
      else lo
  end.

Definition bisect_left {A} (ltb : A -> A -> bool) (a : list A) (x : A) : Z :=
  bisect_left_loop ltb (length a) a x 0 (Z.of_nat (length a)).

Fixpoint bisect_right_loop {A} (ltb : A -> A -> bool) (fuel : nat)
    (a : list A) (x : A) (lo hi : Z) : Z :=
  match fuel with
  | O => lo
  | S f =>
      if lo <? hi then
        let mid := (lo + hi) / 2 in
        if ltb x (nth (Z.to_nat mid) a x)
        then bisect_right_loop ltb f a x lo mid
        else bisect_right_loop ltb f a x (mid + 1) hi
      else lo
  end.

Definition bisect_right {A} (ltb : A -> A -> bool) (a : list A) (x : A) : Z :=
  bisect_right_loop ltb (length a) a x 0 (Z.of_nat (length a)).

Fixpoint text_eqb (a b : text) : bool :=
  match a, b with
  | [], [] => true
  | c :: a', d :: b' => Ascii.eqb c d && text_eqb a' b'
  | _, _ => false
  end.

(** [k == b'...']: a [str] never equals a [bytes] literal. *)
Definition eq_bytes (k : pystr) (b : text) : bool :=
  match k with
  | PyBytes x => text_eqb x b
  | PyStr _ => false
  end.

(** A [dict] keyed by byte strings, in insertion order. *)
Definition dict (V : Type) := list (text * V).

Fixpoint dict_get {V} (d : dict V) (k : text) : option V :=
  match d with
  | [] => None
  | (k', v) :: r => if text_eqb k' k then Some v else dict_get r k
  end.

Definition dict_mem {V} (d : dict V) (k : text) : bool :=
  match dict_get d k with Some _ => true | None => false end.

Fixpoint dict_set {V} (d : dict V) (k : text) (v : V) : dict V :=
  match d with
  | [] => [(k, v)]
  | (k', v') :: r =>
      if text_eqb k' k then (k', v) :: r else (k', v') :: dict_set r k v
  end.

Fixpoint dict_del {V} (d : dict V) (k : text) : dict V :=
  match d with
  | [] => []
  | (k', v') :: r => if text_eqb k' k then r else (k', v') :: dict_del r k
  end.

(** [x or 0] for an optional integer. *)
Definition or_zero (x : option Z) : Z :=
  match x with
  | Some n => n
  | None => 0
  end.

End Py.

Import Py.

Notation "x <- r ;; k" := (Py.bind r (fun x => k))
  (at level 61, r at next level, right associativity).

(** ** Entry keys *)

Record StreamEntryKey := mkKey { ts : Z; seq : Z }.

(** Named tuples compare as tuples: timestamp first, then sequence. *)
Definition key_ltb (a b : StreamEntryKey) : bool :=
  (ts a <? ts b) || ((ts a =? ts b) && (seq a <? seq b)).

Definition key_eqb (a b : StreamEntryKey) : bool :=
  (ts a =? ts b) && (seq a =? seq b).

Definition key_gtb (a b : StreamEntryKey) : bool := key_ltb b a.

(** [max(a, b)]: the first argument unless the second is greater. *)
Definition key_max (a b : StreamEntryKey) : StreamEntryKey :=
  if key_gtb b a then b else a.

(** [b.decode()]; [UnicodeDecodeError] is a [ValueError]. *)
Definition decode (b : text) : result text :=
  if forallb (fun c => ord c <? 128) b then Ok b else Raise ValueError.

(** [if isinstance(k, bytes): k = k.decode()] *)
Definition as_str (k : pystr) : result text :=
  match k with
  | PyBytes b => decode b
  | PyStr s => Ok s
  end.

Definition encode (k : StreamEntryKey) : text :=
  str_of_int (ts k) ++ "-"%char :: str_of_int (seq k).

Definition parse_str (entry_key_str : pystr) : result StreamEntryKey :=
  entry_key_str <- as_str entry_key_str ;;
  match split_dash entry_key_str with
  | [a] => timestamp <- Py.int a ;; Ok (mkKey timestamp 0)
  | a :: b :: _ =>
      timestamp <- Py.int a ;;
      sequence <- Py.int b ;;
      Ok (mkKey timestamp sequence)
  | [] => Raise IndexError
  end.

(** ** Entries, consumers and groups *)

Record StreamEntry := mkEntry { key : StreamEntryKey; fields : list text }.

Definition format_record (e : StreamEntry) : text * list text :=
  (encode (key e), fields e).

Record StreamConsumerInfo := mkConsumer {
  c_name : text;
  pending : Z;
  last_attempt : Z;
  last_success : Z
}.

(** The group keeps a reference to its stream; here every method of the
    group that looks at the stream takes the stream's current state as an
    argument. *)
Record StreamGroup := mkGroup {
  name : text;
  start_key : StreamEntryKey;
  entries_read : option Z;
  consumers : dict StreamConsumerInfo;
  last_delivered_key : StreamEntryKey;
  last_ack_key : StreamEntryKey;
  pel : list StreamEntryKey
}.

Record XStream := mkXStream {
  _values : list StreamEntry;
  _groups : dict StreamGroup;
  _max_deleted_id : StreamEntryKey;
  _entries_added : Z
}.

(** [XStream()] *)
Definition new_stream : XStream := mkXStream [] [] (mkKey 0 0) 0.

Definition len (s : XStream) : Z := Z.of_nat (length (_values s)).

Definition keys (s : XStream) : list StreamEntryKey := map key (_values s).

Definition set_values (s : XStream) (vs : list StreamEntry) : XStream :=
  mkXStream vs (_groups s) (_max_deleted_id s) (_entries_added s).

Definition set_max_deleted_id (s : XStream) (k : StreamEntryKey) : XStream :=
  mkXStream (_values s) (_groups s) k (_entries_added s).

(** ** The log *)

Definition find_index (s : XStream) (entry_key : StreamEntryKey)
    (from_left : bool) : Z * bool :=
  if len s =? 0 then (0, false)
  else
    let ind := if from_left then bisect_left key_ltb (keys s) entry_key
               else bisect_right key_ltb (keys s) entry_key in
    (ind, (ind <? len s) &&
          match Py.index (_values s) ind with
          | Ok e => key_eqb (key e) entry_key
          | Raise _ => false
          end).

Definition find_index_key_as_str (s : XStream) (entry_key_str : pystr)
    : result (Z * bool) :=
  if eq_bytes entry_key_str (lit "$") then Ok (Z.max (len s - 1) 0, true)
  else ts_seq <- parse_str entry_key_str ;; Ok (find_index s ts_seq true).

Definition parse_ts_seq (ts_seq_str : pystr) : result StreamEntryKey :=
  if eq_bytes ts_seq_str (lit "$") then Ok (mkKey 0 0)
  else parse_str ts_seq_str.

(** The loop of [delete]; [res] counts the removals so far.  An exception
    leaves the entries removed before it removed. *)
Fixpoint delete_loop (lst : list pystr) (res : Z) (s : XStream)
    : result Z * XStream :=
  match lst with
  | [] => (Ok res, s)
  | item :: rest =>
      match find_index_key_as_str s item with
      | Raise e => (Raise e, s)
      | Ok (ind, found) =>
          if found then
            match Py.index (_values s) ind with
            | Raise e => (Raise e, s)
            | Ok ent =>
                let s1 :=
                  set_max_deleted_id s (key_max (key ent) (_max_deleted_id s)) in
                match del_index (_values s1) ind with
                | Raise e => (Raise e, s1)
                | Ok vs => delete_loop rest (res + 1) (set_values s1 vs)
                end
            end
          else delete_loop rest res s
      end
  end.

Definition delete (lst : list pystr) (s : XStream) : result Z * XStream :=
  delete_loop lst 0 s.

(** [self._values[-1].key], guarded by [len(self._values) > 0]. *)
Definition last_key (s : XStream) : option StreamEntryKey :=
  if 0 <? len s then
    match Py.index (_values s) (-1) with
    | Ok e => Some (key e)
    | Raise _ => None
    end
  else None.

(** The key an [add] call resolves its [entry_key] argument to (the three
    branches on the argument's form).  [Ok None] is the early [return None]
    of the [ts-*] branch; [now] is the reading [int(1000 * time.time())]. *)
Definition resolve_key (now : Z) (entry_key : option pystr) (s : XStream)
    : result (option StreamEntryKey) :=
  let star :=
    let ts0 := now in
    let seq0 := 0 in
    let seq0 := match last_key s with
                | Some k =>
                    if (ts k =? ts0) && (seq k >=? seq0) then seq k + 1
                    else seq0
                | None => seq0
                end in
    Ok (Some (mkKey ts0 seq0)) in
  match entry_key with
  | None => star
  | Some entry_key =>
      entry_key <- as_str entry_key ;;
      if text_eqb entry_key (lit "*") then star
      else
        c <- Py.index entry_key (-1) ;;
        if Ascii.eqb c "*" then
          let split := split_dash entry_key in
          if negb (Z.of_nat (length split) =? 2) then Ok None
          else
            s0 <- Py.index split 0 ;;
            ts0 <- Py.int s0 ;;
            let seq0 := match last_key s with
                        | Some k => if ts0 =? ts k then seq k + 1 else 0
                        | None => 0
                        end in
            Ok (Some (mkKey ts0 seq0))
        else
          k <- parse_str (PyStr entry_key) ;; Ok (Some k)
  end.

Definition add (now : Z) (fields : list text) (entry_key : option pystr)
    (s : XStream) : result (option text) * XStream :=
  if negb (Z.of_nat (length fields) mod 2 =? 0) then (Raise AssertionError, s)
  else
    match resolve_key now entry_key s with
    | Raise e => (Raise e, s)
    | Ok None => (Ok None, s)
    | Ok (Some ts_seq) =>
        if match last_key s with
           | Some k => key_gtb k ts_seq
           | None => false
           end
        then (Ok None, s)
        else
          let entry := mkEntry ts_seq fields in
          (Ok (Some (encode (key entry))),
           mkXStream (_values s ++ [entry]) (_groups s) (_max_deleted_id s)
                     (_entries_added s + 1))
    end.

Definition trim (max_length : option Z) (start_entry_key : option pystr)
    (limit : option Z) (s : XStream) : result Z * XStream :=
  match max_length, start_entry_key with
  | Some _, Some _ => (Raise ValueError, s)
  | _, _ =>
      let start_ind : result (option Z) :=
        match max_length, start_entry_key with
        | Some m, _ => Ok (Some (len s - m))
        | None, Some k =>
            p <- find_index_key_as_str s k ;; Ok (Some (fst p))
        | None, None => Ok None
        end in
      match start_ind with
      | Raise e => (Raise e, s)
      | Ok None => (Raise TypeError, s)
      | Ok (Some start_ind) =>
          let res := Z.max start_ind 0 in
          let res := match limit with
                     | Some l => Z.min start_ind l
                     | None => res
                     end in
          (Ok res, set_values s (slice_from (_values s) res))
      end
  end.

Definition last_item_key (s : XStream) : text :=
  match last_key s with
  | Some k => encode k
  | None => lit "0-0"
  end.

Definition stream_read (s : XStream) (start_key : StreamEntryKey)
    (count : option Z) : list StreamEntry :=
  let '(start_ind, found) := find_index s start_key true in
  let start_ind := if found then start_ind + 1 else start_ind in
  if start_ind >=? len s then []
  else
    let end_ind :=
      match count with
      | None => len s
      | Some c => if start_ind + c >=? len s then len s else start_ind + c
      end in
    slice (_values s) start_ind end_ind.

(** ** Consumer groups *)

Section Groups.

(** The defaults of [StreamConsumerInfo.last_attempt] and [last_success]:
    [current_time()] evaluated once each, when the class is defined. *)
Variables default_last_attempt default_last_success : Z.

(** [StreamConsumerInfo(name)] *)
Definition new_consumer (consumer_name : text) : StreamConsumerInfo :=
  mkConsumer consumer_name 0 default_last_attempt default_last_success.

(** [StreamGroup(stream, name, start_key, entries_read)] *)
Definition new_group (name : text) (start_key : StreamEntryKey)
    (entries_read : option Z) : StreamGroup :=
  mkGroup name start_key entries_read [] start_key start_key [].

Definition group_get (s : XStream) (group_name : text) : option StreamGroup :=
  dict_get (_groups s) group_name.

Definition group_add (name : text) (start_key_str : pystr)
    (entries_read : option Z) (s : XStream) : result unit * XStream :=
  let start_key :=
    if eq_bytes start_key_str (lit "$") then
      Ok match last_key s with
         | Some k => k
         | None => mkKey 0 0
         end
    else parse_str start_key_str in
  match start_key with
  | Raise e => (Raise e, s)
  | Ok start_key =>
      (Ok tt,
       mkXStream (_values s)
                 (dict_set (_groups s) name (new_group name start_key entries_read))
                 (_max_deleted_id s) (_entries_added s))
  end.

Definition group_delete (group_name : text) (s : XStream) : Z * XStream :=
  if dict_mem (_groups s) group_name
  then (1, mkXStream (_values s) (dict_del (_groups s) group_name)
                     (_max_deleted_id s) (_entries_added s))
  else (0, s).

Definition set_consumers (g : StreamGroup) (cs : dict StreamConsumerInfo)
    : StreamGroup :=
  mkGroup (name g) (start_key g) (entries_read g) cs (last_delivered_key g)
          (last_ack_key g) (pel g).

Definition add_consumer (consumer_name : text) (g : StreamGroup)
    : Z * StreamGroup :=
  if dict_mem (consumers g) consumer_name then (0, g)
  else (1, set_consumers g
             (dict_set (consumers g) consumer_name (new_consumer consumer_name))).

Definition del_consumer (consumer_name : text) (g : StreamGroup)
    : Z * StreamGroup :=
  match dict_get (consumers g) consumer_name with
  | None => (0, g)
  | Some c => (pending c, set_consumers g (dict_del (consumers g) consumer_name))
  end.

(** What [group_info] reports, one field per key of its reply. *)
Record GroupInfo := mkGroupInfo {
  info_name : text;
  info_consumers : Z;
  info_pending : Z;
  info_last_delivered_id : text;
  info_entries_read : option Z;
  info_lag : Z
}.

Definition group_info (stream : XStream) (g : StreamGroup) : result GroupInfo :=
  let start_index := fst (find_index stream (start_key g) true) in
  let last_delivered_index :=
    fst (find_index stream (last_delivered_key g) true) in
  let last_ack_index := fst (find_index stream (last_ack_key g) true) in
  lag <- (if start_index + or_zero (entries_read g) >? len stream then
            match entries_read g with
            | Some n => Ok (len stream - start_index - n)
            | None => Raise TypeError
            end
          else Ok (len stream - 1 - last_delivered_index)) ;;
  Ok (mkGroupInfo (name g) (Z.of_nat (length (consumers g)))
                  (last_delivered_index - last_ack_index)
                  (encode (last_delivered_key g)) (entries_read g) lag).

(** [pel.update(ks)] on a set kept as a list without repetitions. *)
Fixpoint set_update (pel ks : list StreamEntryKey) : list StreamEntryKey :=
  match ks with
  | [] => pel
  | k :: r =>
      set_update (if existsb (key_eqb k) pel then pel else pel ++ [k]) r
  end.

(** [now1] and [now2] are the two readings of [current_time()]. *)
Definition group_read (now1 now2 : Z) (stream : XStream)
    (consumer_name : text) (start_id : pystr) (count : option Z)
    (noack : bool) (g : StreamGroup)
    : result (list (text * list text)) * StreamGroup :=
  let g := if dict_mem (consumers g) consumer_name then g
           else set_consumers g
                  (dict_set (consumers g) consumer_name
                            (new_consumer consumer_name)) in
  let from_key :=
    if eq_bytes start_id (lit ">") then Ok (last_delivered_key g)
    else k <- parse_str start_id ;; Ok (key_max k (last_delivered_key g)) in
  match from_key with
  | Raise e => (Raise e, g)
  | Ok from_key =>
      let items := stream_read stream from_key count in
      let pel' := if noack then pel g
                  else set_update (pel g) (map key items) in
      let n := Z.of_nat (length items) in
      (* [items[-1]] exists exactly when [len(items) > 0] *)
      let '(ldk, er) :=
        match Py.index items (-1) with
        | Ok it => (key_max (last_delivered_key g) (key it),
                    Some (or_zero (entries_read g) + n))
        | Raise _ => (last_delivered_key g, entries_read g)
        end in
      match dict_get (consumers g) consumer_name with
      | None => (Raise KeyError, g)
      | Some consumer =>
          let consumer :=
            mkConsumer (c_name consumer) (pending consumer + n) now1 now2 in
          (Ok (map format_record items),
           mkGroup (name g) (start_key g) er
                   (dict_set (consumers g) consumer_name consumer)
                   ldk (last_ack_key g) pel')
      end
  end.

End Groups.

(** ** Range queries *)

(** The value of a range bound: one of the two sentinels of
    [fakeredis._commands], or a key. *)
Inductive range_value :=
| BeforeAny
| AfterAny
| KeyValue (k : StreamEntryKey).

Module StreamRangeTest.

Record t := mk { value : range_value; exclusive : bool }.

(** [True] when the key parses, [False] on [ValueError]; any other
    exception is not caught. *)
Definition valid_key (entry_key : pystr) : result bool :=
  match parse_str entry_key with
  | Ok _ => Ok true
  | Raise ValueError => Ok false
  | Raise e => Raise e
  end.

(** [value] is a byte string; [value[:1] == b'('] looks at its first
    byte. *)
Definition decode (value : text) (exclusive : bool) : result t :=
  if text_eqb value (lit "-") then Ok (mk BeforeAny true)
  else if text_eqb value (lit "+") then Ok (mk AfterAny true)
  else
    match value with
    | c :: rest =>
        if Ascii.eqb c "(" then
          k <- parse_str (PyBytes rest) ;; Ok (mk (KeyValue k) true)
        else k <- parse_str (PyBytes value) ;; Ok (mk (KeyValue k) exclusive)
    | [] => k <- parse_str (PyBytes value) ;; Ok (mk (KeyValue k) exclusive)
    end.

End StreamRangeTest.

(** [range(start, stop)] *)
Definition py_range (start stop : Z) : list Z :=
  map (fun i => start + Z.of_nat i) (List.seq 0 (Z.to_nat (stop - start))).

(** [list(map(f, l))] for an [f] that may raise. *)
Fixpoint map_result {A B} (f : A -> result B) (l : list A) : result (list B) :=
  match l with
  | [] => Ok []
  | a :: r => b <- f a ;; bs <- map_result f r ;; Ok (b :: bs)
  end.

(** [XStream.__iter__], and [__getitem__] for an integer item
    ([__len__] is [len]). *)
Definition stream_iter (s : XStream) : list (text * list text) :=
  map format_record (_values s).

Definition getitem (s : XStream) (item : Z) : result StreamEntry :=
  Py.index (_values s) item.

(** The helper [_find_index] local to [irange]. *)
Definition irange_find_index (s : XStream) (elem : StreamRangeTest.t)
    (from_left : bool) : Z :=
  match StreamRangeTest.value elem with
  | BeforeAny => 0
  | AfterAny => len s
  | KeyValue k =>
      let '(ind, found) := find_index s k from_left in
      if found && StreamRangeTest.exclusive elem then ind + 1 else ind
  end.

Definition irange (s : XStream) (start stop : StreamRangeTest.t)
    (reverse : bool) : result (list (text * list text)) :=
  let start_ind := irange_find_index s start true in
  let stop_ind := irange_find_index s stop false in
  matches <- map_result
               (fun x => e <- Py.index (_values s) x ;; Ok (format_record e))
               (py_range start_ind stop_ind) ;;
  Ok (if reverse then rev matches else matches).

(** ** Repositioning a group, and the summaries *)

Definition set_id (stream : XStream) (last_delivered_str : pystr)
    (new_entries_read : option Z) (g : StreamGroup)
    : result unit * StreamGroup :=
  match parse_ts_seq last_delivered_str with
  | Raise e => (Raise e, g)
  | Ok k =>
      let start_index := fst (find_index stream k true) in
      let g1 := mkGroup (name g) k new_entries_read (consumers g)
                        (last_delivered_key g) (last_ack_key g) (pel g) in
      match getitem stream (Z.min (start_index + or_zero new_entries_read)
                                  (len stream - 1)) with
      | Raise e => (Raise e, g1)
      | Ok e =>
          (Ok tt,
           mkGroup (name g1) (start_key g1) (entries_read g1) (consumers g1)
                   (key e) (last_ack_key g1) (pel g1))
      end
  end.

Definition groups_info (s : XStream) : result (list GroupInfo) :=
  map_result (fun ng => group_info s (snd ng)) (_groups s).

(** What [stream_info] reports, one field per key of its reply; with
    [full] the group count is replaced by the groups' summaries and the
    formatted entries are added. *)
Record StreamInfo := mkStreamInfo {
  info_length : Z;
  info_groups : Z + list GroupInfo;
  info_first_entry : option (text * list text);
  info_last_entry : option (text * list text);
  info_max_deleted_entry_id : text;
  info_entries_added : Z;
  info_recorded_first_entry_id : text;
  info_entries : option (list (text * list text))
}.

Definition stream_info (full : bool) (s : XStream) : result StreamInfo :=
  first <- (if 0 <? len s then
              e <- Py.index (_values s) 0 ;; Ok (Some (format_record e))
            else Ok None) ;;
  last <- (if 0 <? len s then
             e <- Py.index (_values s) (-1) ;; Ok (Some (format_record e))
           else Ok None) ;;
  recorded <- (if 0 <? len s then
                 e <- Py.index (_values s) 0 ;; Ok (encode (key e))
               else Ok (lit "0-0")) ;;
  if full then
    gs <- map_result (fun ng => group_info s (snd ng)) (_groups s) ;;
    Ok (mkStreamInfo (len s) (inr gs) first last
                     (encode (_max_deleted_id s)) (_entries_added s) recorded
                     (Some (map format_record (_values s))))
  else
    Ok (mkStreamInfo (len s) (inl (Z.of_nat (length (_groups s)))) first last
                     (encode (_max_deleted_id s)) (_entries_added s) recorded
                     None).

(** The index of the first key greater than [x], by a scan from the left;
    the number of keys when there is none. *)
Fixpoint first_greater (ks : list StreamEntryKey) (x : StreamEntryKey) : Z :=
  match ks with
  | [] => 0
  | k :: r => if key_ltb x k then 0 else 1 + first_greater r x
  end.

(** The length of the longest prefix whose elements all satisfy [f]. *)
Fixpoint prefix_length {A} (f : A -> bool) (l : list A) : nat :=
  match l with
  | [] => O
  | a :: r => if f a then S (prefix_length f r) else O
  end.

(** Whether a key is stored in the log. *)
Definition stored (s : XStream) (k : StreamEntryKey) : bool :=
  existsb (key_eqb k) (keys s).

(** ** Notions used to state the properties *)

(** A non-empty string of decimal digits, and the number it denotes. *)
Definition numeric (s : text) : bool :=
  match s with
  | [] => false
  | _ => forallb is_digit s
  end.

Definition digits_value (s : text) : Z :=
  fold_left (fun acc c => 10 * acc + digit_val c) s 0.

(** The canonical form of a key string, after the description of the
    keys: every component without its zero padding, the sequence written
    out as [0] when the string has none. *)
Fixpoint strip_zeros (s : text) : text :=
  match s with
  | c :: (_ :: _) as r => if Ascii.eqb c "0" then strip_zeros r else s
  | _ => s
  end.

Definition canonical (s : text) : text :=
  match split_dash s with
  | [a] => strip_zeros a ++ lit "-0"
  | a :: b :: _ => strip_zeros a ++ "-"%char :: strip_zeros b
  | [] => []
  end.

(** A numeral as [str] prints it: digits only, no zero padding. *)
Definition unpadded (s : text) : Prop :=
  forallb is_digit s = true /\ s <> [] /\
  forall r, s = "0"%char :: r -> r = [].

(** A string without the separator. *)
Definition no_dash (s : text) : bool :=
  forallb (fun c => negb (Ascii.eqb c "-")) s.

(** The keys of a log in strictly increasing, and in non-decreasing,
    order. *)
Fixpoint strictly_increasing (ks : list StreamEntryKey) : bool :=
  match ks with
  | a :: (b :: _) as r => key_ltb a b && strictly_increasing r
  | _ => true
  end.

Fixpoint non_decreasing (ks : list StreamEntryKey) : bool :=
  match ks with
  | a :: (b :: _) as r => negb (key_ltb b a) && non_decreasing r
  | _ => true
  end.

(** The log after an entry with key [k] and fields [fs] was appended. *)
Definition appended (s : XStream) (k : StreamEntryKey) (fs : list text)
    : XStream :=
  mkXStream (_values s ++ [mkEntry k fs]) (_groups s) (_max_deleted_id s)
            (_entries_added s + 1).

(** The index of the first key that is not less than [x], by a scan from
    the left; the number of keys when there is none. *)
Fixpoint first_not_less (ks : list StreamEntryKey) (x : StreamEntryKey) : Z :=
  match ks with
  | [] => 0
  | k :: r => if key_ltb k x then 1 + first_not_less r x else 0
  end.

(** The operations that change the entries of a log, and the logs they
    reach from the empty one.  An operation that raises leaves the state it
    had reached. *)
Inductive op :=
| Add (now : Z) (fs : list text) (entry_key : option pystr)
| Delete (lst : list pystr)
| Trim (max_length : option Z) (start_entry_key : option pystr)
       (limit : option Z).

Definition step (s : XStream) (o : op) : XStream :=
  match o with
  | Add now fs entry_key => snd (add now fs entry_key s)
  | Delete lst => snd (delete lst s)
  | Trim max_length start_entry_key limit =>
      snd (trim max_length start_entry_key limit s)
  end.

Definition run (ops : list op) : XStream := fold_left step ops new_stream.

(** * Properties *)

(** ** The embedding on small inputs *)

Example int_examples :
  Py.int (lit "007") = Ok 7 /\ Py.int (lit " +1_000 ") = Ok 1000 /\
  Py.int (lit "") = Raise ValueError /\ Py.int (lit "1__0") = Raise ValueError /\
  Py.int (lit "$") = Raise ValueError.
Proof. repeat split; reflexivity. Qed.

Example str_of_int_examples :
  str_of_int 0 = lit "0" /\ str_of_int (-15) = lit "-15" /\
  str_of_int 1700000000123 = lit "1700000000123".
Proof. repeat split; reflexivity. Qed.

Example split_dash_examples :
  split_dash (lit "5-3-9") = [lit "5"; lit "3"; lit "9"] /\
  split_dash (lit "") = [lit ""] /\ split_dash (lit "-") = [lit ""; lit ""].
Proof. repeat split; reflexivity. Qed.

Example parse_str_examples :
  parse_str (PyBytes (lit "12")) = Ok (mkKey 12 0) /\
  parse_str (PyStr (lit "007-0042")) = Ok (mkKey 7 42) /\
  parse_str (PyStr (lit "5-x")) = Raise ValueError /\
  parse_str (PyBytes (lit "-5")) = Raise ValueError.
Proof. repeat split; reflexivity. Qed.

Example slice_examples :
  slice_from [1; 2; 3] (-2) = [2; 3] /\ slice_from [1; 2; 3] 5 = [] /\
  slice [1; 2; 3] 0 (-1) = [1; 2] /\ slice [1; 2; 3] 1 3 = [2; 3].
Proof. repeat split; reflexivity. Qed.

Example find_index_examples :
  let s := run [Add 0 [] (Some (PyStr (lit "5-0")));
                Add 0 [] (Some (PyStr (lit "6-1")));
                Add 0 [] (Some (PyStr (lit "7-1")))] in
  find_index s (mkKey 6 0) true = (1, false) /\
  find_index s (mkKey 6 1) true = (1, true) /\
  find_index s (mkKey 6 1) false = (2, false) /\
  find_index s (mkKey 9 9) true = (3, false) /\
  find_index new_stream (mkKey 1 1) true = (0, false).
Proof. repeat split; reflexivity. Qed.

Example delete_examples :
  let s := run [Add 0 [] (Some (PyStr (lit "5-0")));
                Add 0 [] (Some (PyStr (lit "6-1")))] in
  fst (delete [PyBytes (lit "5-0")] s) = Ok 1 /\
  fst (delete [PyBytes (lit "5-0")] (snd (delete [PyBytes (lit "5-0")] s)))
  = Ok 0 /\
  fst (delete [PyBytes (lit "x")] s) = Raise ValueError.
Proof. repeat split; reflexivity. Qed.

Example stream_read_examples :
  let s := run [Add 0 [] (Some (PyStr (lit "5-0")));
                Add 0 [] (Some (PyStr (lit "6-1")));
                Add 0 [] (Some (PyStr (lit "7-1")))] in
  map key (stream_read s (mkKey 5 0) None) = [mkKey 6 1; mkKey 7 1] /\
  map key (stream_read s (mkKey 5 0) (Some 1)) = [mkKey 6 1] /\
  map key (stream_read s (mkKey 7 1) None) = [].
Proof. repeat split; reflexivity. Qed.

(** ** Characters and decimal numerals *)

Lemma ord_range c : 0 <= ord c < 256.
Proof.
  unfold ord. pose proof (N_ascii_bounded c). lia.
Qed.

Lemma chr_ord c : chr (ord c) = c.
Proof.
  unfold chr, ord. rewrite N2Z.id. apply ascii_N_embedding.
Qed.

Lemma ord_chr n : 0 <= n < 256 -> ord (chr n) = n.
Proof.
  intros H. unfold chr, ord. rewrite N_ascii_embedding by lia. lia.
Qed.

Lemma is_digit_range c : is_digit c = true <-> 48 <= ord c <= 57.
Proof. unfold is_digit. lia. Qed.

Lemma digit_val_range c : is_digit c = true -> 0 <= digit_val c < 10.
Proof. rewrite is_digit_range. unfold digit_val. lia. Qed.

Lemma chr_digit_val c : is_digit c = true -> chr (48 + digit_val c) = c.
Proof.
  intros _. unfold digit_val. replace (48 + (ord c - 48)) with (ord c) by lia.
  apply chr_ord.
Qed.

Lemma digit_not_space c : is_digit c = true -> is_space c = false.
Proof. rewrite is_digit_range. unfold is_space. lia. Qed.

Lemma digit_not_char c d :
  is_digit c = true -> is_digit d = false -> Ascii.eqb c d = false.
Proof.
  intros Hc Hd. destruct (Ascii.eqb_spec c d); [congruence | reflexivity].
Qed.

Lemma forallb_digit_cons c s :
  forallb is_digit (c :: s) = true ->
  is_digit c = true /\ forallb is_digit s = true.
Proof. simpl. apply andb_prop. Qed.

Lemma numeric_spec s :
  numeric s = true <-> s <> [] /\ forallb is_digit s = true.
Proof.
  destruct s as [|c s]; simpl.
  - split; [discriminate | intros [H _]; congruence].
  - split; [intros H; split; [discriminate | exact H] | intros [_ H]; exact H].
Qed.

Lemma lstrip_digits s : forallb is_digit s = true -> lstrip s = s.
Proof.
  destruct s as [|c s]; [reflexivity|]. intros H.
  apply forallb_digit_cons in H as [Hc _]. simpl.
  now rewrite digit_not_space.
Qed.

Lemma rstrip_digits s : forallb is_digit s = true -> rstrip s = s.
Proof.
  induction s as [|c s IH]; [reflexivity|]. intros H.
  apply forallb_digit_cons in H as [Hc Hs]. simpl.
  rewrite (IH Hs), (digit_not_space _ Hc). now destruct s.
Qed.

Lemma int_digits_digits s : forall acc prev,
  forallb is_digit s = true -> s <> [] \/ prev = true ->
  int_digits acc prev s
  = Some (fold_left (fun a c => 10 * a + digit_val c) s acc).
Proof.
  induction s as [|c s IH]; intros acc prev H Hne.
  - destruct Hne as [Hne | ->]; [congruence | reflexivity].
  - apply forallb_digit_cons in H as [Hc Hs]. simpl. rewrite Hc.
    apply IH; auto.
Qed.

(** [int] reads a string of decimal digits as the number it denotes. *)
Lemma int_numeric s : numeric s = true -> Py.int s = Ok (digits_value s).
Proof.
  rewrite numeric_spec. intros [Hne H]. unfold Py.int, strip.
  rewrite (lstrip_digits _ H), (rstrip_digits _ H).
  destruct s as [|c s]; [congruence|].
  pose proof (forallb_digit_cons _ _ H) as [Hc _].
  rewrite !(digit_not_char c) by (assumption || reflexivity).
  rewrite (int_digits_digits _ 0 false H) by (left; discriminate).
  reflexivity.
Qed.

Lemma digits_value_snoc s c :
  digits_value (s ++ [c]) = 10 * digits_value s + digit_val c.
Proof. unfold digits_value. now rewrite fold_left_app. Qed.

Lemma fold_digits_ge s : forall acc,
  forallb is_digit s = true -> 0 <= acc ->
  acc <= fold_left (fun a c => 10 * a + digit_val c) s acc.
Proof.
  induction s as [|c s IH]; intros acc H Hacc; cbn [fold_left]; [lia|].
  apply forallb_digit_cons in H as [Hc Hs].
  pose proof (digit_val_range _ Hc).
  specialize (IH (10 * acc + digit_val c) Hs). lia.
Qed.

Lemma digits_value_cons c s :
  digits_value (c :: s)
  = fold_left (fun a c => 10 * a + digit_val c) s (digit_val c).
Proof. reflexivity. Qed.

Lemma digits_value_nonneg s : forallb is_digit s = true -> 0 <= digits_value s.
Proof. intros H. apply (fold_digits_ge s 0 H). lia. Qed.

Lemma unpadded_positive h t :
  unpadded (h :: t) -> t <> [] -> 1 <= digits_value (h :: t).
Proof.
  intros (Hd & _ & Hz) Ht.
  apply forallb_digit_cons in Hd as [Hh Hd].
  assert (Hh0 : ord h <> 48).
  { intros E. apply Ht, Hz. f_equal. rewrite <- (chr_ord h), E. reflexivity. }
  apply is_digit_range in Hh. rewrite digits_value_cons.
  pose proof (fold_digits_ge t (digit_val h) Hd). unfold digit_val in *. lia.
Qed.

Lemma unpadded_snoc s c : unpadded (s ++ [c]) -> s <> [] -> unpadded s.
Proof.
  intros (Hd & _ & Hz) Hs. rewrite forallb_app in Hd.
  apply andb_prop in Hd as [Hd _]. repeat split; auto.
  intros r ->. exfalso.
  specialize (Hz (r ++ [c]) eq_refl). now destruct r.
Qed.

Lemma digits_loop_unpadded s : unpadded s -> forall f acc,
  digits_value s < 2 ^ Z.of_nat (S f) ->
  digits_loop (S f) (digits_value s) acc = s ++ acc.
Proof.
  induction s as [|c s IH] using rev_ind; intros Hu f acc Hlt.
  - now destruct Hu as (_ & Hne & _).
  - assert (Hc : is_digit c = true).
    { destruct Hu as (Hd & _). rewrite forallb_app in Hd. simpl in Hd.
      apply andb_prop in Hd as [_ Hd]. now rewrite andb_true_r in Hd. }
    pose proof (digit_val_range _ Hc) as Hr.
    rewrite digits_value_snoc in *.
    set (v := digits_value s) in *. set (d := digit_val c) in *.
    assert (Hq : (10 * v + d) / 10 = v)
      by (symmetry; apply Z.div_unique with d; lia).
    assert (Hm : (10 * v + d) mod 10 = d)
      by (symmetry; apply Z.mod_unique with v; lia).
    assert (Hch : chr (48 + d) = c) by apply (chr_digit_val _ Hc).
    cbn [digits_loop]. rewrite Hq, Hm, Hch.
    destruct s as [|h t].
    + reflexivity.
    + assert (Hs : unpadded (h :: t)) by (apply (unpadded_snoc _ c); easy).
      assert (Hv : 1 <= v).
      { destruct t as [|h' t'].
        - destruct Hs as (Hd & _ & Hz). unfold v.
          rewrite digits_value_cons. cbn [fold_left].
          apply forallb_digit_cons in Hd as [Hh _].
          destruct Hu as (_ & _ & Hz').
          assert (ord h <> 48).
          { intros E. assert (h = "0"%char)
              by (rewrite <- (chr_ord h), E; reflexivity).
            subst h. specialize (Hz' [c] eq_refl). discriminate. }
          apply is_digit_range in Hh. unfold digit_val. lia.
        - apply unpadded_positive; easy. }
      destruct (Z.eqb_spec v 0) as [E|_]; [lia|].
      destruct f as [|f'].
      * change (2 ^ Z.of_nat 1) with 2 in Hlt. lia.
      * rewrite IH; auto.
        -- now rewrite <- app_assoc.
        -- rewrite Nat2Z.inj_succ, Z.pow_succ_r in Hlt by lia. lia.
Qed.

Lemma digits_of_unpadded s : unpadded s -> digits_of (digits_value s) = s.
Proof.
  intros Hu. unfold digits_of.
  pose proof (digits_value_nonneg s (proj1 Hu)) as Hn.
  pose proof (Z.log2_nonneg (digits_value s)) as Hl.
  rewrite digits_loop_unpadded; [apply app_nil_r | exact Hu |].
  rewrite Nat2Z.inj_succ, Z2Nat.id by lia.
  destruct (Z.eq_dec (digits_value s) 0) as [-> | Hnz]; [reflexivity|].
  apply Z.log2_spec. lia.
Qed.

Lemma strip_zeros_unpadded s :
  numeric s = true ->
  unpadded (strip_zeros s) /\ digits_value (strip_zeros s) = digits_value s.
Proof.
  rewrite numeric_spec. intros [Hne Hd].
  induction s as [|c s IH]; [congruence|]. clear Hne.
  pose proof (forallb_digit_cons _ _ Hd) as [Hc Hs].
  destruct s as [|c' s'].
  - simpl. split; [|reflexivity]. repeat split; auto; try discriminate.
    intros r E. now inversion E.
  - cbn [strip_zeros]. destruct (Ascii.eqb_spec c "0") as [-> | Hc0].
    + destruct (IH ltac:(discriminate) Hs) as [Hu Hv]. split; [exact Hu|].
      etransitivity; [exact Hv | reflexivity].
    + split; [|reflexivity]. repeat split; auto; try discriminate.
      intros r E. inversion E. congruence.
Qed.

(** Printing the value of a numeral gives the numeral without its zero
    padding. *)
Lemma str_of_int_digits_value s :
  numeric s = true -> str_of_int (digits_value s) = strip_zeros s.
Proof.
  intros H. destruct (strip_zeros_unpadded s H) as [Hu Hv].
  apply numeric_spec in H as [_ Hd].
  pose proof (digits_value_nonneg s Hd).
  unfold str_of_int. destruct (Z.ltb_spec (digits_value s) 0); [lia|].
  rewrite <- Hv. now apply digits_of_unpadded.
Qed.

(** ** Splitting at the separator *)

Lemma split_dash_nonempty s : split_dash s <> [].
Proof.
  destruct s as [|c s]; simpl; [discriminate|].
  destruct (Ascii.eqb c "-"); [discriminate|].
  destruct (split_dash s); discriminate.
Qed.

Lemma split_dash_no_dash s : no_dash s = true -> split_dash s = [s].
Proof.
  induction s as [|c s IH]; [reflexivity|]. simpl.
  intros H. apply andb_prop in H as [Hc Hs].
  apply negb_true_iff in Hc. now rewrite Hc, IH.
Qed.

Lemma split_dash_app a r :
  no_dash a = true -> split_dash (a ++ "-"%char :: r) = a :: split_dash r.
Proof.
  induction a as [|c a IH]; [reflexivity|]. simpl.
  intros H. apply andb_prop in H as [Hc Hs].
  apply negb_true_iff in Hc. now rewrite Hc, IH.
Qed.

Lemma digits_no_dash s : forallb is_digit s = true -> no_dash s = true.
Proof.
  induction s as [|c s IH]; [reflexivity|]. intros H.
  apply forallb_digit_cons in H as [Hc Hs]. simpl.
  rewrite (digit_not_char c "-" Hc eq_refl). now apply IH.
Qed.

Lemma numeric_no_dash s : numeric s = true -> no_dash s = true.
Proof. rewrite numeric_spec. intros [_ H]. now apply digits_no_dash. Qed.

(** ** Parsing and printing keys *)

Lemma parse_str_one a k :
  as_str k = Ok a -> no_dash a = true ->
  parse_str k = (timestamp <- Py.int a ;; Ok (mkKey timestamp 0)).
Proof.
  intros E H. unfold parse_str. rewrite E. cbn [bind].
  now rewrite split_dash_no_dash.
Qed.

Lemma parse_str_two a b r k :
  as_str k = Ok (a ++ "-"%char :: b ++ r) ->
  no_dash a = true -> no_dash b = true ->
  r = [] \/ (exists r', r = "-"%char :: r') ->
  parse_str k = (timestamp <- Py.int a ;;
                 sequence <- Py.int b ;; Ok (mkKey timestamp sequence)).
Proof.
  intros E Ha Hb Hr. unfold parse_str. rewrite E. cbn [bind].
  rewrite split_dash_app by exact Ha.
  destruct Hr as [-> | [r' ->]].
  - rewrite app_nil_r, split_dash_no_dash by exact Hb. reflexivity.
  - rewrite split_dash_app by exact Hb. reflexivity.
Qed.

(** C6: for a key string ["<ts>"] or ["<ts>-<seq>"] made of non-empty
    runs of decimal digits, given as [bytes] or as [str], [parse_str]
    returns the key [(ts, 0)], respectively [(ts, seq)], and encoding the
    parsed key gives the canonical form of the string: both components
    without zero padding, joined by ["-"]. *)
Theorem parse_encode_canonical (a b : text) (k1 k2 : pystr) :
  numeric a = true -> numeric b = true ->
  as_str k1 = Ok a -> as_str k2 = Ok (a ++ "-"%char :: b) ->
  parse_str k1 = Ok (mkKey (digits_value a) 0) /\
  parse_str k2 = Ok (mkKey (digits_value a) (digits_value b)) /\
  (x <- parse_str k1 ;; Ok (encode x)) = Ok (canonical a) /\
  (x <- parse_str k2 ;; Ok (encode x)) = Ok (canonical (a ++ "-"%char :: b)).
Proof.
  intros Ha Hb E1 E2.
  pose proof (numeric_no_dash _ Ha) as Da.
  pose proof (numeric_no_dash _ Hb) as Db.
  assert (P1 : parse_str k1 = Ok (mkKey (digits_value a) 0)).
  { rewrite (parse_str_one a) by assumption. now rewrite int_numeric. }
  assert (P2 : parse_str k2 = Ok (mkKey (digits_value a) (digits_value b))).
  { rewrite (parse_str_two a b []); auto.
    - now rewrite !int_numeric.
    - now rewrite app_nil_r. }
  repeat split; try assumption.
  - rewrite P1. cbn [bind]. f_equal. unfold encode, canonical. cbn [ts seq].
    rewrite split_dash_no_dash, str_of_int_digits_value by assumption.
    reflexivity.
  - rewrite P2. cbn [bind]. f_equal. unfold encode, canonical. cbn [ts seq].
    rewrite split_dash_app, split_dash_no_dash by assumption.
    now rewrite !str_of_int_digits_value.
Qed.

Lemma parse_encode_canonical_witness :
  parse_str (PyStr (lit "007")) = Ok (mkKey 7 0) /\
  parse_str (PyBytes (lit "007-0042")) = Ok (mkKey 7 42) /\
  (x <- parse_str (PyStr (lit "007")) ;; Ok (encode x)) = Ok (lit "7-0") /\
  (x <- parse_str (PyBytes (lit "007-0042")) ;; Ok (encode x))
  = Ok (lit "7-42").
Proof.
  exact (parse_encode_canonical (lit "007") (lit "0042")
           (PyStr (lit "007")) (PyBytes (lit "007-0042"))
           eq_refl eq_refl eq_refl eq_refl).
Defined.

(** C10: a key string with more than two ["-"]-separated components whose
    first two components are accepted by [int] does not make [parse_str]
    fail: the key is built from the first two components and whatever
    follows the second separator is ignored, so the result is that of the
    string cut after its second component. *)
Theorem parse_str_ignores_extra_components
    (a b rest : text) (x y : Z) (k : pystr) :
  no_dash a = true -> no_dash b = true ->
  Py.int a = Ok x -> Py.int b = Ok y ->
  as_str k = Ok (a ++ "-"%char :: b ++ "-"%char :: rest) ->
  parse_str k = Ok (mkKey x y) /\
  parse_str k = parse_str (PyStr (a ++ "-"%char :: b)).
Proof.
  intros Da Db Ia Ib E.
  rewrite (parse_str_two a b ("-"%char :: rest) k) by eauto.
  rewrite (parse_str_two a b [] (PyStr (a ++ "-"%char :: b)));
    auto; [| now rewrite app_nil_r].
  now rewrite Ia, Ib.
Qed.

Lemma parse_str_ignores_extra_components_witness :
  parse_str (PyBytes (lit "5-3-9")) = Ok (mkKey 5 3) /\
  parse_str (PyBytes (lit "5-3-9")) = parse_str (PyStr (lit "5-3")).
Proof.
  exact (parse_str_ignores_extra_components (lit "5") (lit "3") (lit "9") 5 3
           (PyBytes (lit "5-3-9")) eq_refl eq_refl eq_refl eq_refl eq_refl).
Defined.

(** ** Indexing *)

Lemma index_in_range {A} (l : list A) (i : Z) (d : A) :
  0 <= i < Z.of_nat (length l) -> Py.index l i = Ok (nth (Z.to_nat i) l d).
Proof.
  intros H. unfold Py.index.
  destruct (Z.ltb_spec i 0); [lia|].
  destruct (Z.leb_spec 0 i); [|lia].
  destruct (Z.ltb_spec i (Z.of_nat (length l))); [|lia]. cbn [andb].
  rewrite (nth_error_nth' l d) by lia. reflexivity.
Qed.

Lemma index_out_of_range {A} (l : list A) (i : Z) :
  Z.of_nat (length l) <= i -> Py.index l i = Raise IndexError.
Proof.
  intros H. unfold Py.index.
  destruct (Z.ltb_spec i 0); [lia|].
  destruct (Z.ltb_spec i (Z.of_nat (length l))); [lia|].
  now rewrite andb_false_r.
Qed.

Lemma index_snoc_last {A} (l : list A) (e : A) :
  Py.index (l ++ [e]) (-1) = Ok e.
Proof.
  unfold Py.index. rewrite length_app, Nat2Z.inj_add. cbn [length].
  change (-1 <? 0) with true. cbv iota.
  destruct (Z.leb_spec 0 (-1 + (Z.of_nat (length l) + Z.of_nat 1))); [|lia].
  destruct (Z.ltb_spec (-1 + (Z.of_nat (length l) + Z.of_nat 1))
                       (Z.of_nat (length l) + Z.of_nat 1)); [|lia].
  cbn [andb].
  replace (Z.to_nat (-1 + (Z.of_nat (length l) + Z.of_nat 1)))
    with (length l) by lia.
  now rewrite nth_error_app2, Nat.sub_diag by lia.
Qed.

Lemma index_snoc_at_length {A} (l : list A) (e : A) :
  Py.index (l ++ [e]) (Z.of_nat (length l)) = Ok e.
Proof.
  rewrite (index_in_range _ _ e).
  - now rewrite Nat2Z.id, nth_middle.
  - rewrite length_app. cbn [length]. lia.
Qed.

Lemma remove_nth_snoc {A} (l : list A) (e : A) :
  remove_nth (length l) (l ++ [e]) = l.
Proof. induction l as [|a l IH]; [reflexivity|]. simpl. now rewrite IH. Qed.

Lemma del_index_snoc {A} (l : list A) (e : A) :
  del_index (l ++ [e]) (Z.of_nat (length l)) = Ok l.
Proof.
  unfold del_index. rewrite length_app. cbn [length].
  destruct (Z.ltb_spec (Z.of_nat (length l)) 0); [lia|].
  destruct (Z.leb_spec 0 (Z.of_nat (length l))); [|lia].
  destruct (Z.ltb_spec (Z.of_nat (length l)) (Z.of_nat (length l + 1)));
    [|lia].
  cbn [andb]. now rewrite Nat2Z.id, remove_nth_snoc.
Qed.

Lemma len_snoc vs e g m n :
  len (mkXStream (vs ++ [e]) g m n) = Z.of_nat (length vs) + 1.
Proof. unfold len. cbn [_values]. rewrite length_app. cbn [length]. lia. Qed.

Lemma last_key_nil s : _values s = [] -> last_key s = None.
Proof. intros E. unfold last_key, len. now rewrite E. Qed.

Lemma last_key_snoc s vs e : _values s = vs ++ [e] -> last_key s = Some (key e).
Proof.
  intros E. unfold last_key, len. rewrite E, index_snoc_last.
  rewrite length_app. cbn [length].
  destruct (Z.ltb_spec 0 (Z.of_nat (length vs + 1))); [reflexivity | lia].
Qed.

Lemma values_cases (s : XStream) :
  _values s = [] \/ exists vs e, _values s = vs ++ [e].
Proof.
  destruct (_values s) as [|a l] using rev_ind; [now left|].
  right. now exists l, a.
Qed.

(** ** The order on keys *)

Ltac key_arith :=
  intros;
  repeat match goal with
         | k : StreamEntryKey |- _ => destruct k
         end;
  unfold key_max, key_gtb, key_ltb, key_eqb in *; cbn [ts seq] in *;
  repeat match goal with
         | |- context [if ?b then _ else _] => destruct b eqn:?
         end;
  cbn [ts seq] in *; try lia; try (f_equal; lia).

Lemma key_ltb_irrefl a : key_ltb a a = false.
Proof. key_arith. Qed.

Lemma key_ltb_trans a b c :
  key_ltb a b = true -> key_ltb b c = true -> key_ltb a c = true.
Proof. key_arith. Qed.

Lemma key_ltb_le_trans a b c :
  key_ltb a b = true -> key_ltb c b = false -> key_ltb a c = true.
Proof. key_arith. Qed.

Lemma key_le_ltb_trans a b c :
  key_ltb b a = false -> key_ltb b c = true -> key_ltb a c = true.
Proof. key_arith. Qed.

Lemma key_le_trans a b c :
  key_ltb b a = false -> key_ltb c b = false -> key_ltb c a = false.
Proof. key_arith. Qed.

Lemma key_eqb_eq a b : key_eqb a b = true <-> a = b.
Proof.
  split.
  - key_arith.
  - intros ->. key_arith.
Qed.

Lemma key_trichotomy a b :
  key_ltb a b = false -> key_ltb b a = false -> a = b.
Proof. key_arith. Qed.

Lemma key_max_ge_l a b : key_ltb (key_max a b) a = false.
Proof. key_arith. Qed.

Lemma key_max_ge_r a b : key_ltb (key_max a b) b = false.
Proof. key_arith. Qed.

(** ** Appending *)

Lemma text_eqb_eq a : forall b, text_eqb a b = true <-> a = b.
Proof.
  induction a as [|c a IH]; intros [|d b]; simpl; try easy.
  rewrite andb_true_iff, IH, Ascii.eqb_eq. split.
  - now intros [-> ->].
  - intros E. now inversion E.
Qed.

(** What [add] does once the key is resolved: the guard against a greater
    last key, then the append. *)
Lemma add_resolved now fs entry_key s k :
  Z.of_nat (length fs) mod 2 = 0 ->
  resolve_key now entry_key s = Ok (Some k) ->
  add now fs entry_key s =
    if match last_key s with
       | Some l => key_gtb l k
       | None => false
       end
    then (Ok None, s)
    else (Ok (Some (encode k)), appended s k fs).
Proof.
  intros Hf Hr. unfold add. rewrite Hr, Hf. reflexivity.
Qed.

(** X28: an [add] whose resolved key is below the last stored key is
    turned down: it returns [None] and nothing changes. *)
Lemma add_smaller_key_rejected now fs entry_key s k l :
  Z.of_nat (length fs) mod 2 = 0 ->
  resolve_key now entry_key s = Ok (Some k) ->
  last_key s = Some l -> key_ltb k l = true ->
  add now fs entry_key s = (Ok None, s).
Proof.
  intros Hf Hr Hl Hlt. rewrite (add_resolved _ _ _ _ k) by assumption.
  rewrite Hl. unfold key_gtb. now rewrite Hlt.
Qed.

Lemma resolve_key_auto now t k s :
  numeric t = true -> as_str k = Ok (t ++ lit "-*") ->
  resolve_key now (Some k) s =
    Ok (Some (mkKey (digits_value t)
                    match last_key s with
                    | Some l => if digits_value t =? ts l then seq l + 1 else 0
                    | None => 0
                    end)).
Proof.
  intros Ht E. unfold resolve_key. rewrite E. cbn [bind].
  destruct (text_eqb (t ++ lit "-*") (lit "*")) eqn:Eq.
  { apply text_eqb_eq in Eq. apply (f_equal (@length _)) in Eq.
    rewrite length_app in Eq. cbn in Eq.
    destruct t; [discriminate | cbn in Eq; lia]. }
  change (t ++ lit "-*") with (t ++ ["-"%char] ++ ["*"%char]).
  rewrite app_assoc, index_snoc_last. cbn [bind].
  change (Ascii.eqb "*" "*") with true. cbv iota.
  rewrite <- app_assoc. cbn [app].
  rewrite split_dash_app by now apply numeric_no_dash.
  cbn [split_dash Ascii.eqb]. 
  change (Py.index [t; ["*"%char]] 0) with (Ok t).
  cbn. rewrite int_numeric by assumption. reflexivity.
Qed.

(** C7: for a key argument ["<ts>-*"] with [ts] a decimal numeral, [add]
    takes sequence 0 unless the last stored key has the same timestamp, in
    which case it takes that key's sequence plus 1; the entry is appended
    and its encoded key returned, unless the last stored key has a greater
    timestamp.  Two such appends in a row to an empty log return the keys
    with sequence 0 and then 1: [b"5-0"] then [b"5-1"] for ["5-*"]. *)
Theorem add_auto_sequence
    (now now' : Z) (fs fs' : list text) (t : text) (k : pystr) (s : XStream) :
  Z.of_nat (length fs) mod 2 = 0 -> Z.of_nat (length fs') mod 2 = 0 ->
  numeric t = true -> as_str k = Ok (t ++ lit "-*") ->
  add now fs (Some k) s =
    match last_key s with
    | None =>
        (Ok (Some (encode (mkKey (digits_value t) 0))),
         appended s (mkKey (digits_value t) 0) fs)
    | Some l =>
        if digits_value t <? ts l then (Ok None, s)
        else
          let k' := mkKey (digits_value t)
                          (if ts l =? digits_value t then seq l + 1 else 0) in
          (Ok (Some (encode k')), appended s k' fs)
    end
  /\ fst (add now fs (Some k) new_stream)
     = Ok (Some (encode (mkKey (digits_value t) 0)))
  /\ fst (add now' fs' (Some k) (snd (add now fs (Some k) new_stream)))
     = Ok (Some (encode (mkKey (digits_value t) 1)))
  /\ (let five := Some (PyStr (lit "5-*")) in
      let f := [lit "a"; lit "1"] in
      fst (add now f five new_stream) = Ok (Some (lit "5-0")) /\
      fst (add now' f five (snd (add now f five new_stream)))
      = Ok (Some (lit "5-1"))).
Proof.
  intros Hf Hf' Ht E.
  assert (G : forall n f s0, Z.of_nat (length f) mod 2 = 0 ->
    add n f (Some k) s0 =
    match last_key s0 with
    | None =>
        (Ok (Some (encode (mkKey (digits_value t) 0))),
         appended s0 (mkKey (digits_value t) 0) f)
    | Some l =>
        if digits_value t <? ts l then (Ok None, s0)
        else
          let k' := mkKey (digits_value t)
                          (if ts l =? digits_value t then seq l + 1 else 0) in
          (Ok (Some (encode k')), appended s0 k' f)
    end).
  { intros n f s0 Hn.
    rewrite (add_resolved _ _ _ _ _ Hn (resolve_key_auto n t k s0 Ht E)).
    destruct (last_key s0) as [l|]; [|reflexivity].
    unfold key_gtb, key_ltb. cbn [ts seq]. rewrite (Z.eqb_sym (ts l)).
    destruct (Z.eqb_spec (digits_value t) (ts l)) as [Et|Et].
    - rewrite Et, Z.ltb_irrefl. cbn [orb andb].
      destruct (Z.ltb_spec (seq l + 1) (seq l)); [lia | reflexivity].
    - rewrite andb_false_l, orb_false_r. reflexivity. }
  split; [now apply G|].
  assert (L0 : last_key new_stream = None) by reflexivity.
  split; [rewrite G, L0 by assumption; reflexivity|].
  split.
  - rewrite (G now fs new_stream Hf), L0. cbn [snd].
    rewrite (G now' fs'), (last_key_snoc _ [] (mkEntry (mkKey (digits_value t) 0) fs))
      by (assumption || reflexivity).
    cbn [key ts seq]. now rewrite Z.ltb_irrefl, Z.eqb_refl.
  - split; reflexivity.
Qed.

Lemma add_auto_sequence_witness :
  add 0 [lit "a"; lit "1"] (Some (PyStr (lit "5-*")))
      (appended new_stream (mkKey 5 7) [])
  = (Ok (Some (lit "5-8")),
     appended (appended new_stream (mkKey 5 7) []) (mkKey 5 8)
              [lit "a"; lit "1"]).
Proof.
  exact (proj1 (add_auto_sequence 0 0 [lit "a"; lit "1"] [lit "a"; lit "1"]
                  (lit "5") (PyStr (lit "5-*"))
                  (appended new_stream (mkKey 5 7) [])
                  eq_refl eq_refl eq_refl eq_refl)).
Defined.

(** C1: the log that holds the single key [5-0] is reached by one append
    to the empty log; appending the explicit key [5-0] to it, a key equal
    to the last stored key, is not turned down: [add] returns [b"5-0"],
    stores a second entry under that key and counts it. *)
Theorem add_equal_key_is_appended (now : Z) :
  let fs := [lit "a"; lit "1"] in
  let five := Some (PyBytes (lit "5-0")) in
  let s1 := appended new_stream (mkKey 5 0) fs in
  add now fs five new_stream = (Ok (Some (lit "5-0")), s1) /\
  last_key s1 = Some (mkKey 5 0) /\
  resolve_key now five s1 = Ok (Some (mkKey 5 0)) /\
  add now fs five s1 = (Ok (Some (lit "5-0")), appended s1 (mkKey 5 0) fs) /\
  keys (appended s1 (mkKey 5 0) fs) = [mkKey 5 0; mkKey 5 0] /\
  _entries_added (appended s1 (mkKey 5 0) fs) = _entries_added s1 + 1.
Proof. repeat split; reflexivity. Qed.

(** ** The counter of appended entries *)

Lemma delete_loop_entries_added lst : forall res s,
  _entries_added (snd (delete_loop lst res s)) = _entries_added s.
Proof.
  induction lst as [|item rest IH]; intros res s; [reflexivity|].
  cbn [delete_loop].
  destruct (find_index_key_as_str s item) as [[ind found]|]; [|reflexivity].
  destruct found; [|apply IH].
  destruct (Py.index (_values s) ind); [|reflexivity].
  destruct (del_index _ ind); [|reflexivity].
  now rewrite IH.
Qed.

Lemma trim_entries_added max_length start_entry_key limit s :
  _entries_added (snd (trim max_length start_entry_key limit s))
  = _entries_added s.
Proof.
  unfold trim.
  destruct max_length, start_entry_key as [k|]; try reflexivity.
  destruct (find_index_key_as_str s k); reflexivity.
Qed.

(** C8: [_entries_added] grows by exactly 1 in an [add] call that appends
    (one that returns a key) and is unchanged by an [add] call that does
    not; [delete] and [trim] leave it unchanged whatever they remove, and
    so do the operations on the group registry.  No operation lowers it. *)
Theorem entries_added_counts_appends
    (now : Z) (fs : list text) (entry_key : option pystr)
    (lst : list pystr) (max_length : option Z) (start_entry_key : option pystr)
    (limit : option Z) (gname : text) (start : pystr) (er : option Z)
    (s : XStream) :
  _entries_added (snd (add now fs entry_key s))
  = _entries_added s
    + match fst (add now fs entry_key s) with
      | Ok (Some _) => 1
      | _ => 0
      end
  /\ _entries_added (snd (delete lst s)) = _entries_added s
  /\ _entries_added (snd (trim max_length start_entry_key limit s))
     = _entries_added s
  /\ _entries_added (snd (group_add gname start er s)) = _entries_added s
  /\ _entries_added (snd (group_delete gname s)) = _entries_added s.
Proof.
  repeat split.
  - unfold add.
    destruct (negb _); [cbn; lia|].
    destruct (resolve_key now entry_key s) as [[k|]|]; try (cbn; lia).
    destruct (match last_key s with Some l => key_gtb l k | None => false end);
      cbn; lia.
  - apply delete_loop_entries_added.
  - apply trim_entries_added.
  - unfold group_add. destruct (eq_bytes _ _); [reflexivity|].
    destruct (parse_str start); reflexivity.
  - unfold group_delete. destruct (dict_mem _ _); reflexivity.
Qed.

(** ** Deleting the last entry through ["$"] *)

Lemma find_index_dollar s :
  find_index_key_as_str s (PyBytes (lit "$")) = Ok (Z.max (len s - 1) 0, true).
Proof. reflexivity. Qed.

(** C9: for the byte string [b"$"], [find_index_key_as_str] reports an
    exact match at index [max(len - 1, 0)], although ["$"] is not a key
    ([parse_str] raises on it).  So when the loop of [delete] meets [b"$"]
    on a log that is not empty, it removes the last stored entry, records
    its key in [_max_deleted_id] and counts one removal; on an empty log
    the access at index 0 is out of range and [delete] raises [IndexError]
    instead of returning 0. *)
Theorem delete_dollar_removes_last
    (vs : list StreamEntry) (e : StreamEntry) (g : dict StreamGroup)
    (m : StreamEntryKey) (n res : Z) (rest : list pystr) :
  let s := mkXStream (vs ++ [e]) g m n in
  let s' := mkXStream vs g (key_max (key e) m) n in
  let empty := mkXStream [] g m n in
  parse_str (PyBytes (lit "$")) = Raise ValueError
  /\ find_index_key_as_str s (PyBytes (lit "$")) = Ok (len s - 1, true)
  /\ find_index_key_as_str empty (PyBytes (lit "$")) = Ok (0, true)
  /\ delete_loop (PyBytes (lit "$") :: rest) res s
     = delete_loop rest (res + 1) s'
  /\ delete [PyBytes (lit "$")] s = (Ok 1, s')
  /\ delete_loop (PyBytes (lit "$") :: rest) res empty
     = (Raise IndexError, empty)
  /\ delete (PyBytes (lit "$") :: rest) empty = (Raise IndexError, empty).
Proof.
  intros s s' empty.
  assert (Hlen : Z.max (len s - 1) 0 = Z.of_nat (length vs)).
  { unfold s. rewrite len_snoc. lia. }
  assert (Hloop : forall r rs, delete_loop (PyBytes (lit "$") :: rs) r s
                               = delete_loop rs (r + 1) s').
  { intros r rs. cbn [delete_loop]. rewrite find_index_dollar, Hlen.
    unfold s at 1. cbn [_values]. rewrite index_snoc_at_length.
    unfold s. cbn [set_max_deleted_id _values _groups _max_deleted_id
                   _entries_added].
    rewrite del_index_snoc. reflexivity. }
  repeat split.
  - rewrite find_index_dollar. f_equal. f_equal. unfold s.
    rewrite len_snoc. lia.
  - apply Hloop.
  - unfold delete. rewrite Hloop. reflexivity.
Qed.

(** ** Binary search *)

Lemma mid_bounds lo hi : lo < hi -> lo <= (lo + hi) / 2 < hi.
Proof.
  intros H. split.
  - apply Z.div_le_lower_bound; lia.
  - apply Z.div_lt_upper_bound; lia.
Qed.

Lemma bisect_left_loop_bounds {A} (ltb : A -> A -> bool) fuel a x :
  forall lo hi, lo <= hi ->
  lo <= bisect_left_loop ltb fuel a x lo hi <= hi.
Proof.
  induction fuel as [|f IH]; intros lo hi H; cbn [bisect_left_loop]; [lia|].
  destruct (Z.ltb_spec lo hi) as [Hlt|]; [|lia].
  pose proof (mid_bounds lo hi Hlt).
  destruct (ltb _ x).
  - specialize (IH ((lo + hi) / 2 + 1) hi). lia.
  - specialize (IH lo ((lo + hi) / 2)). lia.
Qed.

Lemma bisect_left_bounds {A} (ltb : A -> A -> bool) a x :
  0 <= bisect_left ltb a x <= Z.of_nat (length a).
Proof. unfold bisect_left. apply bisect_left_loop_bounds. lia. Qed.

Lemma find_index_left s k :
  fst (find_index s k true) = bisect_left key_ltb (keys s) k.
Proof.
  unfold find_index, len, keys.
  destruct (Z.eqb_spec (Z.of_nat (length (_values s))) 0) as [E|E];
    [|reflexivity].
  destruct (_values s); [reflexivity | discriminate].
Qed.

Lemma len_keys s : Z.of_nat (length (keys s)) = len s.
Proof. unfold keys, len. now rewrite length_map. Qed.

(** C4: [group_info] always returns, and the lag it reports is
    [len - start_index - entries_read] when [start_index + entries_read]
    (with an unknown [entries_read] counted as 0) exceeds the length of the
    log, and [len - 1 - last_delivered_index] otherwise, where the two
    indices are the results of [bisect_left] for [start_key] and
    [last_delivered_key] over the keys of the log. *)
Theorem group_info_lag (stream : XStream) (g : StreamGroup) :
  let start_index := bisect_left key_ltb (keys stream) (start_key g) in
  let last_delivered_index :=
    bisect_left key_ltb (keys stream) (last_delivered_key g) in
  exists info,
    group_info stream g = Ok info /\
    info_lag info =
      if start_index + or_zero (entries_read g) >? len stream
      then len stream - start_index - or_zero (entries_read g)
      else len stream - 1 - last_delivered_index.
Proof.
  intros start_index last_delivered_index. unfold group_info.
  rewrite !find_index_left. fold start_index last_delivered_index.
  destruct (start_index + or_zero (entries_read g) >? len stream) eqn:Hgt.
  - destruct (entries_read g) as [n|] eqn:Her.
    + eexists. split; reflexivity.
    + exfalso. cbn [or_zero] in Hgt.
      pose proof (bisect_left_bounds key_ltb (keys stream) (start_key g)).
      rewrite len_keys in *. fold start_index in H. lia.
  - eexists. split; reflexivity.
Qed.

(** ** Ordered lists of keys *)

Lemma non_decreasing_unfold a b r :
  non_decreasing (a :: b :: r)
  = negb (key_ltb b a) && non_decreasing (b :: r).
Proof. reflexivity. Qed.

Lemma strictly_increasing_unfold a b r :
  strictly_increasing (a :: b :: r)
  = key_ltb a b && strictly_increasing (b :: r).
Proof. reflexivity. Qed.

Lemma non_decreasing_cons a r :
  non_decreasing (a :: r) = true ->
  non_decreasing r = true /\ Forall (fun y => key_ltb y a = false) r.
Proof.
  revert a. induction r as [|b r IH]; intros a H; [now split|].
  rewrite non_decreasing_unfold in H. apply andb_prop in H as [Hab Hr].
  apply negb_true_iff in Hab. split; [exact Hr|].
  destruct (IH b Hr) as [_ Hall]. constructor; [exact Hab|].
  eapply Forall_impl; [|exact Hall].
  intros y Hy. cbn beta in *. now apply (key_le_trans a b y).
Qed.

Lemma strictly_increasing_cons a r :
  strictly_increasing (a :: r) = true ->
  strictly_increasing r = true /\ Forall (fun y => key_ltb a y = true) r.
Proof.
  revert a. induction r as [|b r IH]; intros a H; [now split|].
  rewrite strictly_increasing_unfold in H. apply andb_prop in H as [Hab Hr].
  split; [exact Hr|].
  destruct (IH b Hr) as [_ Hall]. constructor; [exact Hab|].
  eapply Forall_impl; [|exact Hall].
  intros y Hy. cbn beta in *. now apply (key_ltb_trans a b y).
Qed.

Lemma strictly_increasing_non_decreasing ks :
  strictly_increasing ks = true -> non_decreasing ks = true.
Proof.
  induction ks as [|a [|b r] IH]; try reflexivity.
  rewrite strictly_increasing_unfold, non_decreasing_unfold. intros H.
  apply andb_prop in H as [Hab Hr]. rewrite (IH Hr), andb_true_r.
  apply negb_true_iff. revert Hab. key_arith.
Qed.

Lemma non_decreasing_nth ks d :
  non_decreasing ks = true ->
  forall i j, (i <= j < length ks)%nat ->
  key_ltb (nth j ks d) (nth i ks d) = false.
Proof.
  induction ks as [|a r IH]; intros H i j Hij; [cbn in Hij; lia|].
  destruct (non_decreasing_cons _ _ H) as [Hr Hall].
  destruct j as [|j]; destruct i as [|i]; try lia; cbn [nth].
  - apply key_ltb_irrefl.
  - rewrite Forall_forall in Hall. apply Hall, nth_In. cbn in Hij. lia.
  - apply IH; [exact Hr | cbn in Hij; lia].
Qed.

Lemma strictly_increasing_nth ks d :
  strictly_increasing ks = true ->
  forall i j, (i < j < length ks)%nat ->
  key_ltb (nth i ks d) (nth j ks d) = true.
Proof.
  induction ks as [|a r IH]; intros H i j Hij; [cbn in Hij; lia|].
  destruct (strictly_increasing_cons _ _ H) as [Hr Hall].
  destruct j as [|j]; destruct i as [|i]; try lia; cbn [nth].
  - rewrite Forall_forall in Hall. apply Hall, nth_In. cbn in Hij. lia.
  - apply IH; [exact Hr | cbn in Hij; lia].
Qed.

(** The loop of [bisect_left] on an ordered list keeps the keys below [x]
    to the left of [lo] and the others from [hi] on. *)
Lemma bisect_left_loop_sorted ks x :
  non_decreasing ks = true ->
  forall fuel lo hi,
  0 <= lo <= hi -> hi <= Z.of_nat (length ks) -> hi - lo <= Z.of_nat fuel ->
  (forall i, 0 <= i < lo -> key_ltb (nth (Z.to_nat i) ks x) x = true) ->
  (forall i, hi <= i < Z.of_nat (length ks) ->
             key_ltb (nth (Z.to_nat i) ks x) x = false) ->
  let r := bisect_left_loop key_ltb fuel ks x lo hi in
  (forall i, 0 <= i < r -> key_ltb (nth (Z.to_nat i) ks x) x = true) /\
  (forall i, r <= i < Z.of_nat (length ks) ->
             key_ltb (nth (Z.to_nat i) ks x) x = false).
Proof.
  intros Hs. induction fuel as [|f IH]; intros lo hi Hlo Hhi Hfuel Hl Hr;
    cbn [bisect_left_loop].
  - split; [exact Hl|]. intros i Hi. apply Hr. lia.
  - destruct (Z.ltb_spec lo hi) as [Hlt|Hge].
    2:{ split; [exact Hl|]. intros i Hi. apply Hr. lia. }
    pose proof (mid_bounds lo hi Hlt) as Hm.
    set (mid := (lo + hi) / 2) in *.
    destruct (key_ltb (nth (Z.to_nat mid) ks x) x) eqn:Hmid.
    + apply IH; try lia; [|exact Hr].
      intros i Hi.
      apply (key_le_ltb_trans _ (nth (Z.to_nat mid) ks x)); [|exact Hmid].
      apply non_decreasing_nth; [exact Hs | lia].
    + apply IH; try lia; [exact Hl|].
      intros i Hi.
      apply (key_le_trans _ (nth (Z.to_nat mid) ks x)); [exact Hmid|].
      apply non_decreasing_nth; [exact Hs | lia].
Qed.

Lemma bisect_left_sorted ks x :
  non_decreasing ks = true ->
  let r := bisect_left key_ltb ks x in
  (forall i, 0 <= i < r -> key_ltb (nth (Z.to_nat i) ks x) x = true) /\
  (forall i, r <= i < Z.of_nat (length ks) ->
             key_ltb (nth (Z.to_nat i) ks x) x = false).
Proof.
  intros Hs. unfold bisect_left.
  apply bisect_left_loop_sorted; try lia; try exact Hs; intros i Hi; lia.
Qed.

Lemma first_not_less_spec ks x :
  let r := first_not_less ks x in
  0 <= r <= Z.of_nat (length ks) /\
  (forall i, 0 <= i < r -> key_ltb (nth (Z.to_nat i) ks x) x = true) /\
  (r < Z.of_nat (length ks) -> key_ltb (nth (Z.to_nat r) ks x) x = false).
Proof.
  induction ks as [|k ks IH]; cbn [first_not_less length].
  - repeat split; intros; lia.
  - destruct IH as (Hb & Hl & Hr).
    destruct (key_ltb k x) eqn:Hk.
    + repeat split; try lia.
      * intros i Hi. destruct (Z.eq_dec i 0) as [-> | Hi0]; [exact Hk|].
        replace (Z.to_nat i) with (S (Z.to_nat (i - 1))) by lia.
        cbn [nth]. apply Hl. lia.
      * intros Hlt.
        replace (Z.to_nat (1 + first_not_less ks x))
          with (S (Z.to_nat (first_not_less ks x))) by lia.
        cbn [nth]. apply Hr. lia.
    + repeat split; intros; try lia. exact Hk.
Qed.

(** On an ordered list of keys [bisect_left] finds the index of the first
    key that is not less than [x]. *)
Lemma bisect_left_first_not_less ks x :
  non_decreasing ks = true ->
  bisect_left key_ltb ks x = first_not_less ks x.
Proof.
  intros Hs.
  destruct (bisect_left_sorted ks x Hs) as [Bl Br].
  destruct (first_not_less_spec ks x) as (Fb & Fl & Fr).
  pose proof (bisect_left_bounds key_ltb ks x) as Bb.
  destruct (Z.lt_trichotomy (bisect_left key_ltb ks x) (first_not_less ks x))
    as [Hlt | [Heq | Hgt]]; [|exact Heq|].
  - specialize (Fl (bisect_left key_ltb ks x) ltac:(lia)).
    specialize (Br (bisect_left key_ltb ks x) ltac:(lia)). congruence.
  - specialize (Bl (first_not_less ks x) ltac:(lia)).
    specialize (Fr ltac:(lia)). congruence.
Qed.

(** ** Trimming *)

Lemma slice_from_in_range {A} (l : list A) (i : Z) :
  0 <= i -> slice_from l i = skipn (Z.to_nat i) l.
Proof.
  intros Hi. unfold slice_from, clamp_bound.
  destruct (Z.ltb_spec i 0); [lia|].
  destruct (Z.le_gt_cases i (Z.of_nat (length l))).
  - now rewrite Z.min_l.
  - rewrite Z.min_r, Nat2Z.id, skipn_all by lia.
    symmetry. apply skipn_all2. lia.
Qed.

Lemma find_index_key_as_str_parsed s k x :
  eq_bytes k (lit "$") = false -> parse_str k = Ok x ->
  find_index_key_as_str s k = Ok (find_index s x true).
Proof.
  intros Hd Hp. unfold find_index_key_as_str. now rewrite Hd, Hp.
Qed.

(** X23: without a limit, [trim] with [max_length] keeps the [max_length]
    most recent entries and returns how many it removed. *)
Lemma trim_max_length m s :
  0 <= m ->
  trim (Some m) None None s
  = (Ok (Z.max (len s - m) 0),
     set_values s (skipn (Z.to_nat (len s - m)) (_values s)))
  /\ len (snd (trim (Some m) None None s)) = len s - Z.max (len s - m) 0.
Proof.
  intros Hm. unfold trim. cbn [fst snd].
  rewrite slice_from_in_range by lia.
  replace (Z.to_nat (Z.max (len s - m) 0)) with (Z.to_nat (len s - m)) by lia.
  split; [reflexivity|].
  unfold len, set_values. cbn [_values]. rewrite length_skipn.
  unfold len. lia.
Qed.

(** X24: without a limit, [trim] with a minimum key removes, from an
    ordered log, exactly the entries before the first key that is not less
    than the minimum, and returns their number. *)
Lemma trim_min_key k x s :
  eq_bytes k (lit "$") = false -> parse_str k = Ok x ->
  non_decreasing (keys s) = true ->
  let cut := first_not_less (keys s) x in
  trim None (Some k) None s
  = (Ok cut, set_values s (skipn (Z.to_nat cut) (_values s)))
  /\ len (snd (trim None (Some k) None s)) = len s - cut.
Proof.
  intros Hd Hp Hs cut. unfold trim.
  rewrite (find_index_key_as_str_parsed s k x Hd Hp). cbn [bind fst snd].
  rewrite find_index_left, (bisect_left_first_not_less _ _ Hs). fold cut.
  destruct (first_not_less_spec (keys s) x) as (Hb & _). fold cut in Hb.
  rewrite len_keys in Hb.
  rewrite Z.max_l, slice_from_in_range by lia.
  split; [reflexivity|].
  unfold len, set_values. cbn [_values]. rewrite length_skipn.
  unfold len in Hb. lia.
Qed.

(** X25: a limit caps a cut that is not negative: the smaller of the two
    is the number of entries removed, and the value returned. *)
Lemma trim_max_length_limit m l s :
  0 <= m <= len s -> 0 <= l ->
  trim (Some m) None (Some l) s
  = (Ok (Z.min (len s - m) l),
     set_values s (skipn (Z.to_nat (Z.min (len s - m) l)) (_values s)))
  /\ len (snd (trim (Some m) None (Some l) s))
     = len s - Z.min (len s - m) l.
Proof.
  intros Hm Hl. unfold trim. cbn [fst snd].
  rewrite slice_from_in_range by lia.
  split; [reflexivity|].
  unfold len, set_values. cbn [_values]. rewrite length_skipn.
  unfold len in *. lia.
Qed.

(** C3: on the log with keys [1-0], [2-0], [3-0], reached by three
    appends, [trim(max_length=5, limit=10)] computes the cut [3 - 5 = -2];
    the cut is not clamped to 0 when the limit is applied: the call
    returns [-2] and keeps only the last two entries, so one entry is
    removed while the returned value is negative. *)
Theorem trim_limit_drops_clamp :
  let f := [lit "a"; lit "1"] in
  let s3 := run [Add 0 f (Some (PyBytes (lit "1-0")));
                 Add 0 f (Some (PyBytes (lit "2-0")));
                 Add 0 f (Some (PyBytes (lit "3-0")))] in
  keys s3 = [mkKey 1 0; mkKey 2 0; mkKey 3 0] /\
  fst (trim (Some 5) None (Some 10) s3) = Ok (-2) /\
  keys (snd (trim (Some 5) None (Some 10) s3)) = [mkKey 2 0; mkKey 3 0] /\
  len s3 - len (snd (trim (Some 5) None (Some 10) s3)) = 1 /\
  trim (Some 5) None None s3 = (Ok 0, s3).
Proof. repeat split; reflexivity. Qed.

(** ** The order of the log *)

Lemma non_decreasing_snoc ks l k :
  non_decreasing (ks ++ [l]) = true -> key_ltb k l = false ->
  non_decreasing ((ks ++ [l]) ++ [k]) = true.
Proof.
  intros H Hk. induction ks as [|a ks IH].
  - cbn. now rewrite Hk.
  - destruct ks as [|b r].
    + cbn [app] in *. rewrite non_decreasing_unfold in *.
      apply andb_prop in H as [Hal _]. rewrite Hal. cbn. now rewrite Hk.
    + cbn [app] in *. rewrite non_decreasing_unfold in *.
      apply andb_prop in H as [Hab Hr]. rewrite Hab. now apply IH.
Qed.

Lemma non_decreasing_build a r :
  non_decreasing r = true -> Forall (fun y => key_ltb y a = false) r ->
  non_decreasing (a :: r) = true.
Proof.
  intros Hr Hall. destruct r as [|b r]; [reflexivity|].
  rewrite non_decreasing_unfold, Hr, andb_true_r.
  apply negb_true_iff. now inversion Hall.
Qed.

Lemma non_decreasing_skipn n : forall ks,
  non_decreasing ks = true -> non_decreasing (skipn n ks) = true.
Proof.
  induction n as [|n IH]; intros [|a r] H; try assumption.
  cbn [skipn]. apply IH. now apply (non_decreasing_cons a).
Qed.

Lemma Forall_remove_nth {A} (P : A -> Prop) n : forall l,
  Forall P l -> Forall P (remove_nth n l).
Proof.
  induction n as [|n IH]; intros [|a r] H; cbn [remove_nth]; try assumption.
  - now inversion H.
  - inversion H; subst. constructor; auto.
Qed.

Lemma non_decreasing_remove_nth n : forall ks,
  non_decreasing ks = true -> non_decreasing (remove_nth n ks) = true.
Proof.
  induction n as [|n IH]; intros [|a r] H; cbn [remove_nth]; try assumption.
  - now apply (non_decreasing_cons a).
  - destruct (non_decreasing_cons _ _ H) as [Hr Hall].
    apply non_decreasing_build; [now apply IH | now apply Forall_remove_nth].
Qed.

Lemma map_remove_nth {A B} (f : A -> B) n : forall l,
  map f (remove_nth n l) = remove_nth n (map f l).
Proof.
  induction n as [|n IH]; intros [|a r]; cbn [remove_nth map]; try reflexivity.
  now rewrite IH.
Qed.

Lemma add_non_decreasing now fs entry_key s :
  non_decreasing (keys s) = true ->
  non_decreasing (keys (snd (add now fs entry_key s))) = true.
Proof.
  intros H. unfold add.
  destruct (negb _); [exact H|].
  destruct (resolve_key now entry_key s) as [[k|]|]; try exact H.
  destruct (values_cases s) as [E | (vs & e & E)].
  - rewrite (last_key_nil s E). cbn [snd]. unfold keys. cbn [_values].
    now rewrite E.
  - rewrite (last_key_snoc s vs e E).
    destruct (key_gtb (key e) k) eqn:Hgt; [exact H|].
    cbn [snd]. unfold keys in *. cbn [_values].
    rewrite E, !map_app in *. cbn [map key] in *.
    now apply non_decreasing_snoc.
Qed.

Lemma delete_loop_non_decreasing lst : forall res s,
  non_decreasing (keys s) = true ->
  non_decreasing (keys (snd (delete_loop lst res s))) = true.
Proof.
  induction lst as [|item rest IH]; intros res s H; [exact H|].
  cbn [delete_loop].
  destruct (find_index_key_as_str s item) as [[ind found]|]; [|exact H].
  destruct found; [|now apply IH].
  destruct (Py.index (_values s) ind); [|exact H].
  unfold del_index. cbn [set_max_deleted_id _values].
  destruct (_ && _); [|exact H].
  apply IH. unfold keys, set_values. cbn [_values].
  rewrite map_remove_nth. now apply non_decreasing_remove_nth.
Qed.

Lemma trim_non_decreasing max_length start_entry_key limit s :
  non_decreasing (keys s) = true ->
  non_decreasing (keys (snd (trim max_length start_entry_key limit s))) = true.
Proof.
  intros H. unfold trim.
  assert (G : forall n, non_decreasing
            (keys (set_values s (slice_from (_values s) n))) = true).
  { intros n. unfold keys, set_values, slice_from. cbn [_values].
    rewrite <- skipn_map. now apply non_decreasing_skipn. }
  destruct max_length, start_entry_key as [k|]; try exact H; try apply G.
  destruct (find_index_key_as_str s k); [apply G | exact H].
Qed.

(** X26: whatever is appended, deleted and trimmed, the keys of the log
    never decrease from one entry to the next. *)
Lemma run_non_decreasing ops : non_decreasing (keys (run ops)) = true.
Proof.
  unfold run.
  assert (G : forall s, non_decreasing (keys s) = true ->
                        non_decreasing (keys (fold_left step ops s)) = true).
  { induction ops as [|o ops IH]; intros s H; [exact H|].
    cbn [fold_left]. apply IH. destruct o; cbn [step].
    - now apply add_non_decreasing.
    - now apply delete_loop_non_decreasing.
    - now apply trim_non_decreasing. }
  now apply G.
Qed.

(** Strictness is lost in one way only: [delete] and [trim] keep the keys
    strictly increasing, and so does [add] unless the key it resolves is
    the last stored key. *)
Lemma strictly_increasing_snoc ks l k :
  strictly_increasing (ks ++ [l]) = true -> key_ltb l k = true ->
  strictly_increasing ((ks ++ [l]) ++ [k]) = true.
Proof.
  intros H Hk. induction ks as [|a ks IH].
  - cbn. now rewrite Hk.
  - destruct ks as [|b r].
    + cbn [app] in *. rewrite strictly_increasing_unfold in *.
      apply andb_prop in H as [Hal _]. rewrite Hal. cbn. now rewrite Hk.
    + cbn [app] in *. rewrite strictly_increasing_unfold in *.
      apply andb_prop in H as [Hab Hr]. rewrite Hab. now apply IH.
Qed.

Lemma strictly_increasing_build a r :
  strictly_increasing r = true -> Forall (fun y => key_ltb a y = true) r ->
  strictly_increasing (a :: r) = true.
Proof.
  intros Hr Hall. destruct r as [|b r]; [reflexivity|].
  rewrite strictly_increasing_unfold, Hr, andb_true_r. now inversion Hall.
Qed.

Lemma strictly_increasing_skipn n : forall ks,
  strictly_increasing ks = true -> strictly_increasing (skipn n ks) = true.
Proof.
  induction n as [|n IH]; intros [|a r] H; try assumption.
  cbn [skipn]. apply IH. now apply (strictly_increasing_cons a).
Qed.

Lemma strictly_increasing_remove_nth n : forall ks,
  strictly_increasing ks = true ->
  strictly_increasing (remove_nth n ks) = true.
Proof.
  induction n as [|n IH]; intros [|a r] H; cbn [remove_nth]; try assumption.
  - now apply (strictly_increasing_cons a).
  - destruct (strictly_increasing_cons _ _ H) as [Hr Hall].
    apply strictly_increasing_build;
      [now apply IH | now apply Forall_remove_nth].
Qed.

Lemma add_strictly_increasing now fs entry_key s :
  strictly_increasing (keys s) = true ->
  (forall k, resolve_key now entry_key s = Ok (Some k) ->
             last_key s <> Some k) ->
  strictly_increasing (keys (snd (add now fs entry_key s))) = true.
Proof.
  intros H Hne. unfold add.
  destruct (negb _); [exact H|].
  destruct (resolve_key now entry_key s) as [[k|]|]; try exact H.
  specialize (Hne k eq_refl).
  destruct (values_cases s) as [E | (vs & e & E)].
  - rewrite (last_key_nil s E). cbn [snd]. unfold keys. cbn [_values].
    now rewrite E.
  - rewrite (last_key_snoc s vs e E) in *.
    destruct (key_gtb (key e) k) eqn:Hgt; [exact H|].
    cbn [snd]. unfold keys in *. cbn [_values].
    rewrite E, !map_app in *. cbn [map key] in *.
    apply strictly_increasing_snoc; [exact H|].
    destruct (key_ltb (key e) k) eqn:Hlt; [reflexivity|].
    exfalso. apply Hne. f_equal. now apply key_trichotomy.
Qed.

Lemma delete_loop_strictly_increasing lst : forall res s,
  strictly_increasing (keys s) = true ->
  strictly_increasing (keys (snd (delete_loop lst res s))) = true.
Proof.
  induction lst as [|item rest IH]; intros res s H; [exact H|].
  cbn [delete_loop].
  destruct (find_index_key_as_str s item) as [[ind found]|]; [|exact H].
  destruct found; [|now apply IH].
  destruct (Py.index (_values s) ind); [|exact H].
  unfold del_index. cbn [set_max_deleted_id _values].
  destruct (_ && _); [|exact H].
  apply IH. unfold keys, set_values. cbn [_values].
  rewrite map_remove_nth. now apply strictly_increasing_remove_nth.
Qed.

Lemma trim_strictly_increasing max_length start_entry_key limit s :
  strictly_increasing (keys s) = true ->
  strictly_increasing
    (keys (snd (trim max_length start_entry_key limit s))) = true.
Proof.
  intros H. unfold trim.
  assert (G : forall n, strictly_increasing
            (keys (set_values s (slice_from (_values s) n))) = true).
  { intros n. unfold keys, set_values, slice_from. cbn [_values].
    rewrite <- skipn_map. now apply strictly_increasing_skipn. }
  destruct max_length, start_entry_key as [k|]; try exact H; try apply G.
  destruct (find_index_key_as_str s k); [apply G | exact H].
Qed.

(** C2: two appends of the explicit key [5-0] to the empty log leave a log
    with two entries under the key [5-0]: its keys are not strictly
    increasing (they are non-decreasing). *)
Theorem run_equal_keys_stored :
  let f := [lit "a"; lit "1"] in
  let ops := [Add 0 f (Some (PyBytes (lit "5-0")));
              Add 0 f (Some (PyBytes (lit "5-0")))] in
  keys (run ops) = [mkKey 5 0; mkKey 5 0] /\
  strictly_increasing (keys (run ops)) = false /\
  non_decreasing (keys (run ops)) = true.
Proof. repeat split; reflexivity. Qed.

(** ** Reading *)

Lemma In_firstn {A} n (l : list A) e : In e (firstn n l) -> In e l.
Proof.
  intros H. rewrite <- (firstn_skipn n l). apply in_or_app. now left.
Qed.

Lemma In_slice {A} (l : list A) (lo hi : Z) (e d : A) :
  0 <= lo -> In e (slice l lo hi) ->
  exists i, (Z.to_nat lo <= i < length l)%nat /\ nth i l d = e.
Proof.
  intros Hlo H. unfold slice in H. apply In_firstn in H.
  apply (In_nth _ _ d) in H as (n & Hn & E).
  rewrite length_skipn in Hn. rewrite nth_skipn in E.
  unfold clamp_bound in *. destruct (Z.ltb_spec lo 0); [lia|].
  exists (Z.to_nat (Z.min lo (Z.of_nat (length l))) + n)%nat.
  split; [lia | exact E].
Qed.

Lemma find_index_left_spec s x :
  let r := bisect_left key_ltb (keys s) x in
  find_index s x true
  = (r, (r <? len s) && key_eqb (nth (Z.to_nat r) (keys s) x) x).
Proof.
  intros r. unfold find_index.
  destruct (Z.eqb_spec (len s) 0) as [E|E].
  - unfold r, keys, len in *.
    destruct (_values s); [reflexivity | discriminate].
  - fold r. f_equal.
    pose proof (bisect_left_bounds key_ltb (keys s) x) as Hb. fold r in Hb.
    destruct (Z.ltb_spec r (len s)) as [Hlt|]; [|reflexivity].
    rewrite (index_in_range _ _ (mkEntry x [])) by (unfold len in Hlt; lia).
    cbn [andb]. unfold keys.
    change x with (key (mkEntry x [])) at 3. now rewrite map_nth.
Qed.

(** On a log whose keys strictly increase, [stream_read] returns only
    entries with a key greater than [start_key]. *)
Lemma stream_read_after s start_key count :
  strictly_increasing (keys s) = true ->
  Forall (fun e => key_ltb start_key (key e) = true)
         (stream_read s start_key count).
Proof.
  intros Hs. unfold stream_read. rewrite find_index_left_spec.
  set (r := bisect_left key_ltb (keys s) start_key).
  set (found := (r <? len s) && _).
  set (start_ind := if found then r + 1 else r).
  destruct (start_ind >=? len s); [constructor|].
  set (end_ind := match count with None => _ | Some _ => _ end).
  pose proof (bisect_left_bounds key_ltb (keys s) start_key) as Hb.
  fold r in Hb.
  destruct (bisect_left_sorted (keys s) start_key
              (strictly_increasing_non_decreasing _ Hs)) as [_ Hge].
  fold r in Hge.
  apply Forall_forall. intros e He.
  apply (In_slice _ _ _ _ (mkEntry start_key [])) in He as (i & Hi & <-);
    [|unfold start_ind; destruct found; lia].
  change (key (nth i (_values s) (mkEntry start_key [])))
    with (key (nth i (_values s) (mkEntry start_key []))).
  rewrite <- (map_nth key). fold (keys s). cbn [key].
  assert (Hlen : length (keys s) = length (_values s))
    by (unfold keys; apply length_map).
  assert (Hri : r < Z.of_nat (length (keys s))) by (unfold start_ind in Hi; destruct found; lia).
  destruct (Nat.eq_dec i (Z.to_nat r)) as [-> | Hne].
  - (* the entry at [r] itself: only when it is not an exact match *)
    destruct found eqn:Hf; [unfold start_ind in Hi; lia|].
    unfold found in Hf. rewrite len_keys in Hri.
    destruct (Z.ltb_spec r (len s)); [|lia]. cbn [andb] in Hf.
    specialize (Hge r ltac:(rewrite len_keys; lia)).
    destruct (key_ltb start_key (nth (Z.to_nat r) (keys s) start_key)) eqn:Hlt;
      [reflexivity|].
    rewrite (key_trichotomy _ _ Hge Hlt) in Hf.
    assert (key_eqb start_key start_key = true) by now apply key_eqb_eq.
    congruence.
  - apply (key_le_ltb_trans _ (nth (Z.to_nat r) (keys s) start_key)).
    + apply Hge. lia.
    + apply strictly_increasing_nth; [exact Hs|].
      unfold start_ind in Hi. destruct found; lia.
Qed.

(** ** Group reads *)

Lemma text_eqb_refl a : text_eqb a a = true.
Proof. now apply text_eqb_eq. Qed.

Lemma dict_get_set_same {V} (d : dict V) k v :
  dict_get (dict_set d k v) k = Some v.
Proof.
  induction d as [|[k' v'] d IH]; cbn [dict_set dict_get].
  - now rewrite text_eqb_refl.
  - destruct (text_eqb k' k) eqn:E; cbn [dict_get]; rewrite E; auto.
Qed.

Lemma set_update_incl ks : forall pel k,
  In k pel \/ In k ks -> In k (set_update pel ks).
Proof.
  induction ks as [|a ks IH]; intros pel k H; cbn [set_update].
  - destruct H as [H | []]. exact H.
  - apply IH. destruct H as [H | [-> | H]]; auto.
    + left. destruct (existsb _ pel); [exact H|].
      apply in_or_app. now left.
    + left. destruct (existsb (key_eqb k) pel) eqn:E.
      * apply existsb_exists in E as (y & Hy & Ey).
        apply key_eqb_eq in Ey. now subst.
      * apply in_or_app. right. now left.
Qed.

Section GroupReads.

Variables default_last_attempt default_last_success : Z.

(** X27: a read of new messages with acknowledgement tracking, on a log
    whose keys strictly increase: every key returned is greater than the
    key last delivered before the call, every key returned is in the
    pending set afterwards, and the key last delivered does not move
    back. *)
Lemma group_read_new_keys now1 now2 stream consumer_name count g :
  strictly_increasing (keys stream) = true ->
  let r := group_read default_last_attempt default_last_success now1 now2
             stream consumer_name (PyBytes (lit ">")) count false g in
  exists items,
    fst r = Ok (map format_record items) /\
    Forall (fun e => key_ltb (last_delivered_key g) (key e) = true /\
                     In (key e) (pel (snd r))) items /\
    key_ltb (last_delivered_key (snd r)) (last_delivered_key g) = false.
Proof.
  intros Hs. cbv zeta. unfold group_read.
  set (g1 := if dict_mem (consumers g) consumer_name then g else _).
  assert (Hl : last_delivered_key g1 = last_delivered_key g)
    by (unfold g1; destruct (dict_mem _ _); reflexivity).
  assert (Hp : pel g1 = pel g)
    by (unfold g1; destruct (dict_mem _ _); reflexivity).
  assert (Hc : exists c, dict_get (consumers g1) consumer_name = Some c).
  { unfold g1, dict_mem.
    destruct (dict_get (consumers g) consumer_name) as [c|] eqn:E.
    - now exists c.
    - eexists. cbn [set_consumers consumers]. apply dict_get_set_same. }
  destruct Hc as [c Hc].
  change (eq_bytes (PyBytes (lit ">")) (lit ">")) with true.
  cbv iota. rewrite Hl, Hp, Hc.
  pose proof (stream_read_after stream (last_delivered_key g) count Hs) as Hr.
  set (items := stream_read stream (last_delivered_key g) count) in *.
  exists items.
  assert (Hpel : forall e, In e items ->
            In (key e) (set_update (pel g) (map key items))).
  { intros e He. apply set_update_incl. right. now apply in_map. }
  rewrite Forall_forall in Hr.
  destruct (Py.index items (-1)) as [it|];
    cbn [fst snd pel last_delivered_key];
    (split; [reflexivity|]); (split; [apply Forall_forall; auto|]).
  - apply key_max_ge_l.
  - apply key_ltb_irrefl.
Qed.

(** C5: a group is registered at key [0] on the log that holds the key
    [5-0]; a first read of new messages returns the entry [5-0], records
    it as pending and moves the last delivered key to [5-0].  After the
    explicit key [5-0] is appended once more, the next read of new
    messages returns an entry with key [5-0] again: a key that an earlier
    read returned, and one that is not greater than the last delivered
    key at the start of the call. *)
Theorem group_read_returns_equal_key_again (now1 now2 now3 now4 : Z) :
  let f := [lit "a"; lit "1"] in
  let five := Some (PyBytes (lit "5-0")) in
  let read := fun n1 n2 s g =>
    group_read default_last_attempt default_last_success n1 n2 s
               (lit "c1") (PyBytes (lit ">")) (Some 10) false g in
  let s1 := snd (group_add (lit "g") (PyBytes (lit "0")) None
                           (snd (add 0 f five new_stream))) in
  let g0 := new_group (lit "g") (mkKey 0 0) None in
  let r1 := read now1 now2 s1 g0 in
  let s2 := snd (add 0 f five s1) in
  let r2 := read now3 now4 s2 (snd r1) in
  group_get s1 (lit "g") = Some g0 /\
  fst r1 = Ok [(lit "5-0", f)] /\
  last_delivered_key (snd r1) = mkKey 5 0 /\
  pel (snd r1) = [mkKey 5 0] /\
  keys s2 = [mkKey 5 0; mkKey 5 0] /\
  fst r2 = Ok [(lit "5-0", f)] /\
  last_delivered_key (snd r2) = mkKey 5 0 /\
  pel (snd r2) = [mkKey 5 0].
Proof. repeat split; reflexivity. Qed.

End GroupReads.

(** * Further properties of the log *)

(** ** Lookups *)

Lemma key_eqb_sym a b : key_eqb a b = key_eqb b a.
Proof. unfold key_eqb. now rewrite (Z.eqb_sym (ts a)), (Z.eqb_sym (seq a)). Qed.

Lemma key_eqb_refl a : key_eqb a a = true.
Proof. now apply key_eqb_eq. Qed.

Lemma key_ltb_not_eqb a b : key_ltb a b = true -> key_eqb a b = false.
Proof. key_arith. Qed.

Lemma key_ltb_not_eqb' a b : key_ltb a b = true -> key_eqb b a = false.
Proof. key_arith. Qed.

Lemma existsb_above x k r :
  key_ltb x k = true -> Forall (fun y => key_ltb y k = false) r ->
  existsb (key_eqb x) r = false.
Proof.
  intros Hx Hall. induction Hall as [|y r Hy _ IH]; [reflexivity|].
  cbn [existsb]. rewrite IH, orb_false_r.
  apply key_ltb_not_eqb. now apply (key_ltb_le_trans x k y).
Qed.

Lemma first_not_less_found ks x :
  non_decreasing ks = true ->
  let r := first_not_less ks x in
  (r <? Z.of_nat (length ks)) && key_eqb (nth (Z.to_nat r) ks x) x
  = existsb (key_eqb x) ks.
Proof.
  induction ks as [|k ks IH]; intros Hs; [reflexivity|].
  destruct (non_decreasing_cons _ _ Hs) as [Hs' Hall].
  destruct (first_not_less_spec ks x) as (Hb & _).
  cbn [first_not_less existsb length]. destruct (key_ltb k x) eqn:Hk.
  - rewrite (key_ltb_not_eqb' _ _ Hk), orb_false_l, <- (IH Hs'). cbv zeta.
    replace (Z.to_nat (1 + first_not_less ks x))
      with (S (Z.to_nat (first_not_less ks x))) by lia.
    cbn [nth]. f_equal.
    destruct (Z.ltb_spec (1 + first_not_less ks x) (Z.of_nat (S (length ks))));
      destruct (Z.ltb_spec (first_not_less ks x) (Z.of_nat (length ks)));
      (reflexivity || lia).
  - cbv zeta. change (Z.to_nat 0) with O. cbn [nth].
    destruct (Z.ltb_spec 0 (Z.of_nat (S (length ks)))); [|lia]. cbn [andb].
    rewrite (key_eqb_sym k x).
    destruct (key_eqb x k) eqn:He; [reflexivity|]. cbn [orb]. symmetry.
    apply (existsb_above x k); [|exact Hall].
    destruct (key_ltb x k) eqn:Hlt; [reflexivity|].
    rewrite (key_trichotomy _ _ Hlt Hk), key_eqb_refl in He. discriminate.
Qed.

Lemma find_index_left_sorted s k :
  non_decreasing (keys s) = true ->
  find_index s k true = (first_not_less (keys s) k, stored s k).
Proof.
  intros Hs. rewrite find_index_left_spec. cbv zeta.
  rewrite (bisect_left_first_not_less _ _ Hs). f_equal.
  rewrite <- len_keys. now apply first_not_less_found.
Qed.

(** X1: on a log whose keys never decrease, [find_index] from the left
    returns the index of the first key that is not less than the given
    key, and reports an exact match exactly when the key is stored. *)
Theorem find_index_left_exact (s : XStream) (k : StreamEntryKey) :
  non_decreasing (keys s) = true ->
  find_index s k true = (first_not_less (keys s) k, stored s k).
Proof.
  intros Hs. rewrite find_index_left_spec. cbv zeta.
  rewrite (bisect_left_first_not_less _ _ Hs). f_equal.
  rewrite <- len_keys. now apply first_not_less_found.
Qed.

Lemma find_index_left_exact_witness :
  let s := run [Add 0 [] (Some (PyStr (lit "5-0")));
                Add 0 [] (Some (PyStr (lit "6-1")))] in
  find_index s (mkKey 6 1) true = (1, true) /\
  find_index s (mkKey 6 0) true = (1, false).
Proof.
  split.
  - exact (find_index_left_exact
             (run [Add 0 [] (Some (PyStr (lit "5-0")));
                   Add 0 [] (Some (PyStr (lit "6-1")))])
             (mkKey 6 1) eq_refl).
  - exact (find_index_left_exact
             (run [Add 0 [] (Some (PyStr (lit "5-0")));
                   Add 0 [] (Some (PyStr (lit "6-1")))])
             (mkKey 6 0) eq_refl).
Defined.

Lemma bisect_right_loop_bounds {A} (ltb : A -> A -> bool) fuel a x :
  forall lo hi, lo <= hi ->
  lo <= bisect_right_loop ltb fuel a x lo hi <= hi.
Proof.
  induction fuel as [|f IH]; intros lo hi H; cbn [bisect_right_loop]; [lia|].
  destruct (Z.ltb_spec lo hi) as [Hlt|]; [|lia].
  pose proof (mid_bounds lo hi Hlt).
  destruct (ltb x _).
  - specialize (IH lo ((lo + hi) / 2)). lia.
  - specialize (IH ((lo + hi) / 2 + 1) hi). lia.
Qed.

Lemma bisect_right_bounds {A} (ltb : A -> A -> bool) a x :
  0 <= bisect_right ltb a x <= Z.of_nat (length a).
Proof. unfold bisect_right. apply bisect_right_loop_bounds. lia. Qed.

Lemma bisect_right_loop_sorted ks x :
  non_decreasing ks = true ->
  forall fuel lo hi,
  0 <= lo <= hi -> hi <= Z.of_nat (length ks) -> hi - lo <= Z.of_nat fuel ->
  (forall i, 0 <= i < lo -> key_ltb x (nth (Z.to_nat i) ks x) = false) ->
  (forall i, hi <= i < Z.of_nat (length ks) ->
             key_ltb x (nth (Z.to_nat i) ks x) = true) ->
  let r := bisect_right_loop key_ltb fuel ks x lo hi in
  (forall i, 0 <= i < r -> key_ltb x (nth (Z.to_nat i) ks x) = false) /\
  (forall i, r <= i < Z.of_nat (length ks) ->
             key_ltb x (nth (Z.to_nat i) ks x) = true).
Proof.
  intros Hs. induction fuel as [|f IH]; intros lo hi Hlo Hhi Hfuel Hl Hr;
    cbn [bisect_right_loop].
  - split; [exact Hl|]. intros i Hi. apply Hr. lia.
  - destruct (Z.ltb_spec lo hi) as [Hlt|Hge].
    2:{ split; [exact Hl|]. intros i Hi. apply Hr. lia. }
    pose proof (mid_bounds lo hi Hlt) as Hm.
    set (mid := (lo + hi) / 2) in *.
    destruct (key_ltb x (nth (Z.to_nat mid) ks x)) eqn:Hmid.
    + apply IH; try lia; [exact Hl|].
      intros i Hi.
      apply (key_ltb_le_trans _ (nth (Z.to_nat mid) ks x)); [exact Hmid|].
      apply non_decreasing_nth; [exact Hs | lia].
    + apply IH; try lia; [|exact Hr].
      intros i Hi.
      apply (key_le_trans _ (nth (Z.to_nat mid) ks x)); [|exact Hmid].
      apply non_decreasing_nth; [exact Hs | lia].
Qed.

Lemma first_greater_spec ks x :
  let r := first_greater ks x in
  0 <= r <= Z.of_nat (length ks) /\
  (forall i, 0 <= i < r -> key_ltb x (nth (Z.to_nat i) ks x) = false) /\
  (r < Z.of_nat (length ks) -> key_ltb x (nth (Z.to_nat r) ks x) = true).
Proof.
  induction ks as [|k ks IH]; cbn [first_greater length].
  - repeat split; intros; lia.
  - destruct IH as (Hb & Hl & Hr).
    destruct (key_ltb x k) eqn:Hk.
    + repeat split; intros; try lia. exact Hk.
    + repeat split; try lia.
      * intros i Hi. destruct (Z.eq_dec i 0) as [-> | Hi0]; [exact Hk|].
        replace (Z.to_nat i) with (S (Z.to_nat (i - 1))) by lia.
        cbn [nth]. apply Hl. lia.
      * intros Hlt.
        replace (Z.to_nat (1 + first_greater ks x))
          with (S (Z.to_nat (first_greater ks x))) by lia.
        cbn [nth]. apply Hr. lia.
Qed.

Lemma bisect_right_first_greater ks x :
  non_decreasing ks = true ->
  bisect_right key_ltb ks x = first_greater ks x.
Proof.
  intros Hs.
  assert (B : (forall i, 0 <= i < bisect_right key_ltb ks x ->
                 key_ltb x (nth (Z.to_nat i) ks x) = false) /\
              (forall i, bisect_right key_ltb ks x <= i < Z.of_nat (length ks) ->
                 key_ltb x (nth (Z.to_nat i) ks x) = true)).
  { unfold bisect_right.
    apply bisect_right_loop_sorted; try lia; try exact Hs; intros i Hi; lia. }
  destruct B as [Bl Br].
  destruct (first_greater_spec ks x) as (Fb & Fl & Fr).
  pose proof (bisect_right_bounds key_ltb ks x) as Bb.
  destruct (Z.lt_trichotomy (bisect_right key_ltb ks x) (first_greater ks x))
    as [Hlt | [Heq | Hgt]]; [|exact Heq|].
  - specialize (Fl (bisect_right key_ltb ks x) ltac:(lia)).
    specialize (Br (bisect_right key_ltb ks x) ltac:(lia)). congruence.
  - specialize (Bl (first_greater ks x) ltac:(lia)).
    specialize (Fr ltac:(lia)). congruence.
Qed.

Lemma find_index_right_spec s x :
  let r := bisect_right key_ltb (keys s) x in
  find_index s x false
  = (r, (r <? len s) && key_eqb (nth (Z.to_nat r) (keys s) x) x).
Proof.
  intros r. unfold find_index.
  destruct (Z.eqb_spec (len s) 0) as [E|E].
  - unfold r, keys, len in *.
    destruct (_values s); [reflexivity | discriminate].
  - fold r. f_equal.
    pose proof (bisect_right_bounds key_ltb (keys s) x) as Hb. fold r in Hb.
    destruct (Z.ltb_spec r (len s)) as [Hlt|]; [|reflexivity].
    rewrite (index_in_range _ _ (mkEntry x [])) by (unfold len in Hlt; lia).
    cbn [andb]. unfold keys.
    change x with (key (mkEntry x [])) at 3. now rewrite map_nth.
Qed.

Lemma find_index_right_sorted s k :
  non_decreasing (keys s) = true ->
  find_index s k false = (first_greater (keys s) k, false).
Proof.
  intros Hs. rewrite find_index_right_spec. cbv zeta.
  rewrite (bisect_right_first_greater _ _ Hs). f_equal.
  destruct (first_greater_spec (keys s) k) as (Hb & _ & Hr).
  rewrite <- len_keys.
  destruct (Z.ltb_spec (first_greater (keys s) k) (Z.of_nat (length (keys s))))
    as [Hlt|]; [|reflexivity].
  cbn [andb]. apply key_ltb_not_eqb'. now apply Hr.
Qed.

(** X2: on a log whose keys never decrease, [find_index] from the right
    returns the index of the first key greater than the given key, and
    never reports an exact match, whether the key is stored or not. *)
Theorem find_index_right_never_exact (s : XStream) (k : StreamEntryKey) :
  non_decreasing (keys s) = true ->
  find_index s k false = (first_greater (keys s) k, false).
Proof.
  intros Hs. rewrite find_index_right_spec. cbv zeta.
  rewrite (bisect_right_first_greater _ _ Hs). f_equal.
  destruct (first_greater_spec (keys s) k) as (Hb & _ & Hr).
  rewrite <- len_keys.
  destruct (Z.ltb_spec (first_greater (keys s) k) (Z.of_nat (length (keys s))))
    as [Hlt|]; [|reflexivity].
  cbn [andb]. apply key_ltb_not_eqb'. now apply Hr.
Qed.

Lemma find_index_right_never_exact_witness :
  let s := run [Add 0 [] (Some (PyStr (lit "5-0")));
                Add 0 [] (Some (PyStr (lit "6-1")))] in
  stored s (mkKey 5 0) = true /\ find_index s (mkKey 5 0) false = (1, false).
Proof.
  split; [reflexivity|].
  exact (find_index_right_never_exact
           (run [Add 0 [] (Some (PyStr (lit "5-0")));
                 Add 0 [] (Some (PyStr (lit "6-1")))])
           (mkKey 5 0) eq_refl).
Defined.

(** ** Slices of an ordered log *)

Lemma filter_all_true {A} (f : A -> bool) l :
  Forall (fun y => f y = true) l -> filter f l = l.
Proof.
  induction 1 as [|y l Hy _ IH]; [reflexivity|].
  cbn [filter]. now rewrite Hy, IH.
Qed.

Lemma filter_all_false {A} (f : A -> bool) l :
  Forall (fun y => f y = false) l -> filter f l = [].
Proof.
  induction 1 as [|y l Hy _ IH]; [reflexivity|].
  cbn [filter]. now rewrite Hy, IH.
Qed.

Lemma sorted_entries_cons e vs :
  non_decreasing (map key (e :: vs)) = true ->
  non_decreasing (map key vs) = true /\
  Forall (fun y => key_ltb (key y) (key e) = false) vs.
Proof.
  intros H. cbn [map] in H.
  destruct (non_decreasing_cons _ _ H) as [Hs Hall]. split; [exact Hs|].
  rewrite Forall_map in Hall. exact Hall.
Qed.

Section SortedSlices.

Variables P Q : StreamEntryKey -> bool.
Hypothesis P_up : forall a b,
  key_ltb b a = false -> P a = true -> P b = true.
Hypothesis Q_down : forall a b,
  key_ltb b a = false -> Q a = false -> Q b = false.

Lemma firstn_prefix_filter vs :
  non_decreasing (map key vs) = true ->
  firstn (prefix_length (fun e => Q (key e)) vs) vs
  = filter (fun e => Q (key e)) vs.
Proof.
  induction vs as [|e vs IH]; intros Hs; [reflexivity|].
  destruct (sorted_entries_cons _ _ Hs) as [Hs' Hall].
  cbn [prefix_length filter]. destruct (Q (key e)) eqn:HQ.
  - cbn [firstn]. now rewrite IH.
  - cbn [firstn]. symmetry. apply filter_all_false.
    eapply Forall_impl; [|exact Hall]. intros y Hy. cbn beta in *.
    now apply (Q_down (key e)).
Qed.

Lemma skipn_prefix_filter vs :
  non_decreasing (map key vs) = true ->
  skipn (prefix_length (fun e => negb (P (key e))) vs) vs
  = filter (fun e => P (key e)) vs.
Proof.
  induction vs as [|e vs IH]; intros Hs; [reflexivity|].
  destruct (sorted_entries_cons _ _ Hs) as [Hs' Hall].
  cbn [prefix_length filter]. destruct (P (key e)) eqn:HP; cbn [negb].
  - cbn [skipn]. f_equal. symmetry. apply filter_all_true.
    eapply Forall_impl; [|exact Hall]. intros y Hy. cbn beta in *.
    now apply (P_up (key e)).
  - cbn [skipn]. now apply IH.
Qed.

Lemma slice_prefix_filter vs :
  non_decreasing (map key vs) = true ->
  firstn (prefix_length (fun e => Q (key e)) vs
          - prefix_length (fun e => negb (P (key e))) vs)
         (skipn (prefix_length (fun e => negb (P (key e))) vs) vs)
  = filter (fun e => P (key e) && Q (key e)) vs.
Proof.
  induction vs as [|e vs IH]; intros Hs; [reflexivity|].
  destruct (sorted_entries_cons _ _ Hs) as [Hs' Hall].
  cbn [prefix_length filter]. destruct (P (key e)) eqn:HP; cbn [negb andb].
  - rewrite Nat.sub_0_r. cbn [skipn].
    change (if Q (key e) then S (prefix_length (fun e0 => Q (key e0)) vs) else O)
      with (prefix_length (fun e0 => Q (key e0)) (e :: vs)).
    rewrite (firstn_prefix_filter (e :: vs) Hs). cbn [filter].
    assert (E : filter (fun e0 => Q (key e0)) vs
                = filter (fun e0 => P (key e0) && Q (key e0)) vs).
    { apply filter_ext_in. intros y Hy. rewrite Forall_forall in Hall.
      now rewrite (P_up (key e) (key y) (Hall y Hy) HP). }
    now rewrite E.
  - destruct (Q (key e)) eqn:HQ.
    + cbn [Nat.sub skipn]. now apply IH.
    + cbn [Nat.sub firstn]. symmetry. apply filter_all_false.
      eapply Forall_impl; [|exact Hall]. intros y Hy. cbn beta in *.
      rewrite (Q_down (key e) (key y) Hy HQ). apply andb_false_r.
Qed.

End SortedSlices.

Lemma prefix_length_first_not_less vs x :
  Z.of_nat (prefix_length (fun e => key_ltb (key e) x) vs)
  = first_not_less (map key vs) x.
Proof.
  induction vs as [|e vs IH]; [reflexivity|].
  cbn [prefix_length map first_not_less].
  destruct (key_ltb (key e) x); [|reflexivity].
  rewrite Nat2Z.inj_succ, IH. lia.
Qed.

Lemma prefix_length_first_greater vs x :
  Z.of_nat (prefix_length (fun e => negb (key_ltb x (key e))) vs)
  = first_greater (map key vs) x.
Proof.
  induction vs as [|e vs IH]; [reflexivity|].
  cbn [prefix_length map first_greater].
  destruct (key_ltb x (key e)); cbn [negb]; [reflexivity|].
  rewrite Nat2Z.inj_succ, IH. lia.
Qed.

(** On strictly increasing keys, the first key greater than [x] comes
    right after [x] when [x] is there. *)
Lemma first_greater_strict ks x :
  strictly_increasing ks = true ->
  first_greater ks x
  = first_not_less ks x + (if existsb (key_eqb x) ks then 1 else 0).
Proof.
  induction ks as [|k ks IH]; intros Hs; [reflexivity|].
  destruct (strictly_increasing_cons _ _ Hs) as [Hs' Hall].
  cbn [first_greater first_not_less existsb].
  destruct (key_ltb k x) eqn:Hkx.
  - assert (Hxk : key_ltb x k = false) by (revert Hkx; key_arith).
    rewrite Hxk, (key_ltb_not_eqb' _ _ Hkx), orb_false_l, (IH Hs'). lia.
  - destruct (key_ltb x k) eqn:Hxk.
    + rewrite (key_ltb_not_eqb _ _ Hxk), orb_false_l.
      assert (E : existsb (key_eqb x) ks = false).
      { apply (existsb_above x k); [exact Hxk|].
        eapply Forall_impl; [|exact Hall]. intros y Hy. cbn beta in *.
        revert Hy. key_arith. }
      now rewrite E.
    + rewrite (key_trichotomy _ _ Hxk Hkx), key_eqb_refl. cbn [orb].
      destruct ks as [|k' ks']; [reflexivity|].
      cbn [first_greater]. inversion Hall as [|? ? Hk' _]; subst.
      rewrite Hk'. reflexivity.
Qed.

Lemma skipn_nth_cons {A} (l : list A) n d :
  (n < length l)%nat -> skipn n l = nth n l d :: skipn (S n) l.
Proof.
  revert n. induction l as [|a l IH]; intros n H; [cbn in H; lia|].
  destruct n as [|n]; [reflexivity|].
  cbn [skipn nth]. apply IH. cbn in H. lia.
Qed.

Lemma map_result_range {B} (vs : list StreamEntry) (f : StreamEntry -> B) n :
  forall a, 0 <= a -> a + Z.of_nat n <= Z.of_nat (length vs) ->
  map_result (fun x => e <- Py.index vs x ;; Ok (f e))
             (map (fun i => a + Z.of_nat i) (List.seq 0 n))
  = Ok (map f (firstn n (skipn (Z.to_nat a) vs))).
Proof.
  induction n as [|n IH]; intros a Ha Hb; [reflexivity|].
  cbn [List.seq map map_result]. rewrite Z.add_0_r.
  destruct vs as [|d0 vs0] eqn:Evs; [cbn in Hb; lia|]. rewrite <- Evs in *.
  rewrite (index_in_range vs a d0) by lia. cbn [bind].
  rewrite <- seq_shift, map_map.
  rewrite (map_ext (fun i => a + Z.of_nat (S i))
                   (fun i => (a + 1) + Z.of_nat i)) by (intros; lia).
  rewrite (IH (a + 1)) by lia. cbn [bind].
  rewrite (skipn_nth_cons vs (Z.to_nat a) d0) by lia.
  cbn [firstn map]. now replace (Z.to_nat (a + 1)) with (S (Z.to_nat a)) by lia.
Qed.

Lemma irange_slice s start stop reverse :
  0 <= irange_find_index s start true <= len s ->
  irange_find_index s stop false <= len s ->
  irange s start stop reverse =
    let sel := firstn (Z.to_nat (irange_find_index s stop false
                                 - irange_find_index s start true))
                      (skipn (Z.to_nat (irange_find_index s start true))
                             (_values s)) in
    Ok (if reverse then rev (map format_record sel)
        else map format_record sel).
Proof.
  intros Ha Hb. unfold irange, py_range.
  rewrite map_result_range by (unfold len in *; lia). reflexivity.
Qed.

(** X3: the range from the bound [b"-"] to the bound [b"+"] is the whole
    log, formatted, in stored order, for any log; with [reverse] it is
    that list reversed. *)
Theorem irange_whole_log (s : XStream) (ex1 ex2 reverse : bool) :
  (lo <- StreamRangeTest.decode (lit "-") ex1 ;;
   hi <- StreamRangeTest.decode (lit "+") ex2 ;;
   irange s lo hi reverse)
  = Ok (if reverse then rev (stream_iter s) else stream_iter s).
Proof.
  change (StreamRangeTest.decode (lit "-") ex1)
    with (Ok (StreamRangeTest.mk BeforeAny true)).
  change (StreamRangeTest.decode (lit "+") ex2)
    with (Ok (StreamRangeTest.mk AfterAny true)).
  cbn [bind].
  rewrite irange_slice; cbn [irange_find_index StreamRangeTest.value];
    try (unfold len; lia).
  cbv zeta. rewrite Z.sub_0_r. unfold len. rewrite Nat2Z.id.
  change (Z.to_nat 0) with O. cbn [skipn]. now rewrite firstn_all.
Qed.

Lemma prefix_length_le {A} (f : A -> bool) l :
  (prefix_length f l <= length l)%nat.
Proof.
  induction l as [|a l IH]; [reflexivity|].
  cbn [prefix_length length]. destruct (f a); lia.
Qed.

Lemma prefix_length_ext {A} (f g : A -> bool) l :
  (forall a, f a = g a) -> prefix_length f l = prefix_length g l.
Proof.
  intros E. induction l as [|a l IH]; [reflexivity|].
  cbn [prefix_length]. now rewrite E, IH.
Qed.

Lemma range_start_index s lo ex_lo :
  non_decreasing (keys s) = true ->
  (ex_lo = true -> strictly_increasing (keys s) = true) ->
  irange_find_index s (StreamRangeTest.mk (KeyValue lo) ex_lo) true
  = Z.of_nat (prefix_length
                (fun e => negb (if ex_lo then key_ltb lo (key e)
                                else negb (key_ltb (key e) lo)))
                (_values s)).
Proof.
  intros Hs Hstrict. unfold irange_find_index.
  cbn [StreamRangeTest.value StreamRangeTest.exclusive].
  rewrite (find_index_left_sorted s lo Hs). unfold stored.
  destruct ex_lo.
  - rewrite andb_true_r, prefix_length_first_greater. fold (keys s).
    rewrite (first_greater_strict _ _ (Hstrict eq_refl)).
    destruct (existsb (key_eqb lo) (keys s)); lia.
  - rewrite andb_false_r.
    rewrite (prefix_length_ext _ (fun e => key_ltb (key e) lo))
      by (intros; apply negb_involutive).
    now rewrite prefix_length_first_not_less.
Qed.

Lemma range_stop_index s hi ex_hi :
  non_decreasing (keys s) = true ->
  irange_find_index s (StreamRangeTest.mk (KeyValue hi) ex_hi) false
  = Z.of_nat (prefix_length (fun e => negb (key_ltb hi (key e))) (_values s)).
Proof.
  intros Hs. unfold irange_find_index.
  cbn [StreamRangeTest.value StreamRangeTest.exclusive].
  rewrite (find_index_right_sorted s hi Hs). cbn [andb].
  now rewrite prefix_length_first_greater.
Qed.

(** X4: on a log whose keys never decrease, the range between two keys is
    exactly the stored entries whose key is not below the start and not
    above the stop, in stored order (reversed with [reverse]).  The
    exclusive flag of the stop bound has no effect: an entry whose key is
    the stop key is returned either way.  With an exclusive start, on
    strictly increasing keys, the entry whose key is the start key is left
    out. *)
Theorem irange_between_keys
    (s : XStream) (lo hi : StreamEntryKey) (ex_lo ex_hi reverse : bool) :
  non_decreasing (keys s) = true ->
  (ex_lo = true -> strictly_increasing (keys s) = true) ->
  irange s (StreamRangeTest.mk (KeyValue lo) ex_lo)
           (StreamRangeTest.mk (KeyValue hi) ex_hi) reverse
  = let sel :=
      filter (fun e => (if ex_lo then key_ltb lo (key e)
                        else negb (key_ltb (key e) lo))
                       && negb (key_ltb hi (key e)))
             (_values s) in
    Ok (if reverse then rev (map format_record sel)
        else map format_record sel).
Proof.
  intros Hs Hstrict.
  pose proof (range_start_index s lo ex_lo Hs Hstrict) as Ea.
  pose proof (range_stop_index s hi ex_hi Hs) as Eb.
  set (a := prefix_length _ _) in Ea. set (b := prefix_length _ _) in Eb.
  assert (La : (a <= length (_values s))%nat) by apply prefix_length_le.
  assert (Lb : (b <= length (_values s))%nat) by apply prefix_length_le.
  rewrite irange_slice by (rewrite ?Ea, ?Eb; unfold len; lia).
  cbv zeta. rewrite Ea, Eb, Nat2Z.id.
  replace (Z.to_nat (Z.of_nat b - Z.of_nat a)) with (b - a)%nat by lia.
  unfold a, b.
  set (P := fun k => if ex_lo then key_ltb lo k else negb (key_ltb k lo)).
  set (Q := fun k => negb (key_ltb hi k)).
  rewrite (slice_prefix_filter P Q); [reflexivity | | | exact Hs].
  - intros x y Hxy. unfold P. destruct ex_lo.
    + intros Hx. now apply (key_ltb_le_trans lo x y).
    + rewrite !negb_true_iff. intros Hx. now apply (key_le_trans lo x y).
  - intros x y Hxy. unfold Q. rewrite !negb_false_iff.
    intros Hx. now apply (key_ltb_le_trans hi x y).
Qed.

Lemma irange_between_keys_witness :
  let s := run [Add 0 [] (Some (PyStr (lit "5-0")));
                Add 0 [] (Some (PyStr (lit "6-1")));
                Add 0 [] (Some (PyStr (lit "7-1")))] in
  irange s (StreamRangeTest.mk (KeyValue (mkKey 5 0)) true)
           (StreamRangeTest.mk (KeyValue (mkKey 6 1)) true) false
  = Ok [(lit "6-1", [])].
Proof.
  exact (irange_between_keys
           (run [Add 0 [] (Some (PyStr (lit "5-0")));
                 Add 0 [] (Some (PyStr (lit "6-1")));
                 Add 0 [] (Some (PyStr (lit "7-1")))])
           (mkKey 5 0) (mkKey 6 1) true true false eq_refl
           (fun _ => eq_refl)).
Defined.

Lemma slice_in_range {A} (l : list A) (lo hi : Z) :
  0 <= lo <= hi -> hi <= Z.of_nat (length l) ->
  slice l lo hi = firstn (Z.to_nat (hi - lo)) (skipn (Z.to_nat lo) l).
Proof.
  intros H1 H2. unfold slice, clamp_bound.
  destruct (Z.ltb_spec lo 0); [lia|]. destruct (Z.ltb_spec hi 0); [lia|].
  now rewrite !Z.min_l by lia.
Qed.

Lemma stream_read_filter s k count :
  strictly_increasing (keys s) = true ->
  match count with Some c => 0 <= c | None => True end ->
  stream_read s k count
  = let sel := filter (fun e => key_ltb k (key e)) (_values s) in
    match count with
    | Some c => firstn (Z.to_nat c) sel
    | None => sel
    end.
Proof.
  intros Hstrict Hc.
  pose proof (strictly_increasing_non_decreasing _ Hstrict) as Hs.
  unfold stream_read. rewrite (find_index_left_sorted s k Hs). unfold stored.
  set (a := prefix_length (fun e => negb (key_ltb k (key e))) (_values s)).
  assert (Ea : (if existsb (key_eqb k) (keys s)
                then first_not_less (keys s) k + 1
                else first_not_less (keys s) k) = Z.of_nat a).
  { unfold a. rewrite prefix_length_first_greater. fold (keys s).
    rewrite (first_greater_strict _ _ Hstrict).
    destruct (existsb (key_eqb k) (keys s)); lia. }
  rewrite Ea.
  pose proof (prefix_length_le (fun e => negb (key_ltb k (key e))) (_values s))
    as La. fold a in La.
  assert (Esel : filter (fun e => key_ltb k (key e)) (_values s)
                 = skipn a (_values s)).
  { unfold a. symmetry.
    apply (skipn_prefix_filter (fun k' => key_ltb k k')); [|exact Hs].
    intros x y Hxy Hx. now apply (key_ltb_le_trans k x y). }
  cbv zeta. rewrite Esel. unfold len.
  destruct (Z.geb_spec (Z.of_nat a) (Z.of_nat (length (_values s)))) as [Hge|Hlt].
  - replace a with (length (_values s)) by lia. rewrite skipn_all.
    destruct count; [now rewrite firstn_nil | reflexivity].
  - destruct count as [c|].
    + destruct (Z.geb_spec (Z.of_nat a + c) (Z.of_nat (length (_values s)))).
      * rewrite slice_in_range by lia. rewrite Nat2Z.id.
        rewrite !firstn_all2; try reflexivity; rewrite length_skipn; lia.
      * rewrite slice_in_range by lia. rewrite Nat2Z.id. f_equal. lia.
    + rewrite slice_in_range by lia. rewrite Nat2Z.id.
      apply firstn_all2. rewrite length_skipn. lia.
Qed.

(** X5: on a log with strictly increasing keys, [stream_read] returns
    exactly the stored entries whose key is greater than the start key, in
    stored order: all of them without a count, the first [count] of them
    for a count that is not negative. *)
Theorem stream_read_exact
    (s : XStream) (k : StreamEntryKey) (count : option Z) :
  strictly_increasing (keys s) = true ->
  match count with Some c => 0 <= c | None => True end ->
  stream_read s k count
  = let sel := filter (fun e => key_ltb k (key e)) (_values s) in
    match count with
    | Some c => firstn (Z.to_nat c) sel
    | None => sel
    end.
Proof. apply stream_read_filter. Qed.

Lemma stream_read_exact_witness :
  let s := run [Add 0 [] (Some (PyStr (lit "5-0")));
                Add 0 [] (Some (PyStr (lit "6-1")));
                Add 0 [] (Some (PyStr (lit "7-1")))] in
  map key (stream_read s (mkKey 5 0) (Some 1)) = [mkKey 6 1].
Proof.
  assert (H : 0 <= 1) by lia.
  exact (f_equal (map key)
           (stream_read_exact
              (run [Add 0 [] (Some (PyStr (lit "5-0")));
                    Add 0 [] (Some (PyStr (lit "6-1")));
                    Add 0 [] (Some (PyStr (lit "7-1")))])
              (mkKey 5 0) (Some 1) eq_refl H)).
Defined.

(** ** Deleting by key *)

Lemma remove_nth_filter vs : forall n d x,
  strictly_increasing (map key vs) = true ->
  (n < length vs)%nat -> key (nth n vs d) = x ->
  remove_nth n vs = filter (fun e => negb (key_eqb (key e) x)) vs.
Proof.
  induction vs as [|e vs IH]; intros n d x Hs Hn Hx; [cbn in Hn; lia|].
  cbn [map] in Hs. destruct (strictly_increasing_cons _ _ Hs) as [Hs' Hall].
  rewrite Forall_map in Hall. rewrite Forall_forall in Hall.
  destruct n as [|n]; cbn [remove_nth nth filter] in *.
  - subst x. rewrite key_eqb_refl. cbn [negb]. symmetry.
    apply filter_all_true. apply Forall_forall. intros y Hy.
    now rewrite (key_ltb_not_eqb' _ _ (Hall y Hy)).
  - assert (Hlt : key_ltb (key e) x = true).
    { subst x. apply Hall, nth_In. cbn in Hn. lia. }
    rewrite (key_ltb_not_eqb _ _ Hlt). cbn [negb]. f_equal.
    apply (IH n d x Hs'); [cbn in Hn; lia | exact Hx].
Qed.

Lemma filter_not_stored vs x :
  existsb (key_eqb x) (map key vs) = false ->
  filter (fun e => negb (key_eqb (key e) x)) vs = vs.
Proof.
  intros H. apply filter_all_true. apply Forall_forall. intros y Hy.
  destruct (key_eqb (key y) x) eqn:E; [|reflexivity]. exfalso.
  assert (Ht : existsb (key_eqb x) (map key vs) = true).
  { apply existsb_exists. exists (key y). split; [now apply in_map|].
    now rewrite key_eqb_sym. }
  congruence.
Qed.

Lemma existsb_filtered vs x :
  existsb (key_eqb x)
          (map key (filter (fun e => negb (key_eqb (key e) x)) vs)) = false.
Proof.
  induction vs as [|e vs IH]; [reflexivity|]. cbn [filter].
  destruct (key_eqb (key e) x) eqn:E; cbn [negb]; [exact IH|].
  cbn [map existsb]. now rewrite key_eqb_sym, E, IH.
Qed.

Lemma stream_eta s :
  mkXStream (_values s) (_groups s) (_max_deleted_id s) (_entries_added s) = s.
Proof. now destruct s. Qed.

Lemma delete_single s k x :
  strictly_increasing (keys s) = true ->
  eq_bytes k (lit "$") = false -> parse_str k = Ok x ->
  delete [k] s
  = (Ok (if stored s x then 1 else 0),
     mkXStream (filter (fun e => negb (key_eqb (key e) x)) (_values s))
               (_groups s)
               (if stored s x then key_max x (_max_deleted_id s)
                else _max_deleted_id s)
               (_entries_added s)).
Proof.
  intros Hstrict Hd Hp.
  pose proof (strictly_increasing_non_decreasing _ Hstrict) as Hs.
  unfold delete. cbn [delete_loop].
  rewrite (find_index_key_as_str_parsed s k x Hd Hp).
  rewrite (find_index_left_sorted s x Hs).
  pose proof (first_not_less_found (keys s) x Hs) as Hf. cbv zeta in Hf.
  fold (stored s x) in Hf.
  destruct (stored s x) eqn:Est.
  - apply andb_prop in Hf as [Hlt Heq].
    apply Z.ltb_lt in Hlt. apply key_eqb_eq in Heq.
    destruct (first_not_less_spec (keys s) x) as (Hb & _).
    set (r := first_not_less (keys s) x) in *.
    rewrite len_keys in Hlt.
    rewrite (index_in_range _ _ (mkEntry x [])) by (unfold len in Hlt; lia).
    assert (Hk : key (nth (Z.to_nat r) (_values s) (mkEntry x [])) = x).
    { rewrite <- (map_nth key). exact Heq. }
    rewrite Hk. unfold del_index. cbn [set_max_deleted_id _values].
    destruct (Z.ltb_spec r 0); [lia|]. destruct (Z.leb_spec 0 r); [|lia].
    destruct (Z.ltb_spec r (Z.of_nat (length (_values s))));
      [|unfold len in Hlt; lia].
    cbn [andb delete_loop]. unfold set_values.
    cbn [_values _groups _max_deleted_id _entries_added].
    rewrite (remove_nth_filter _ _ (mkEntry x []) x Hstrict);
      [reflexivity | unfold len in Hlt; lia | exact Hk].
  - cbn [delete_loop]. rewrite filter_not_stored by exact Est.
    now rewrite stream_eta.
Qed.

(** X6: on a log with strictly increasing keys, deleting one key (given
    as a key string other than [b"$"]) removes exactly the entries stored
    under that key and nothing else; it returns 1 and raises
    [_max_deleted_id] to at least that key when the key was stored, and
    returns 0 and changes nothing when it was not.  Deleting the same key
    again returns 0 and changes nothing. *)
Theorem delete_key_removes_it (s : XStream) (k : pystr) (x : StreamEntryKey) :
  strictly_increasing (keys s) = true ->
  eq_bytes k (lit "$") = false -> parse_str k = Ok x ->
  let s' := snd (delete [k] s) in
  fst (delete [k] s) = Ok (if stored s x then 1 else 0) /\
  _values s' = filter (fun e => negb (key_eqb (key e) x)) (_values s) /\
  _max_deleted_id s' = (if stored s x then key_max x (_max_deleted_id s)
                        else _max_deleted_id s) /\
  stored s' x = false /\
  delete [k] s' = (Ok 0, s').
Proof.
  intros Hstrict Hd Hp s'.
  assert (Hs' : strictly_increasing (keys s') = true)
    by (apply delete_loop_strictly_increasing; exact Hstrict).
  pose proof (delete_single s' k x Hs' Hd Hp) as H2.
  unfold s' in *. rewrite (delete_single s k x Hstrict Hd Hp) in *.
  cbn [fst snd _values _groups _max_deleted_id _entries_added] in *.
  assert (Hn : stored
                 (mkXStream
                    (filter (fun e => negb (key_eqb (key e) x)) (_values s))
                    (_groups s)
                    (if stored s x then key_max x (_max_deleted_id s)
                     else _max_deleted_id s)
                    (_entries_added s)) x = false)
    by apply existsb_filtered.
  repeat split; try assumption.
  rewrite H2, Hn. f_equal. f_equal.
  apply filter_not_stored, existsb_filtered.
Qed.

Lemma delete_key_removes_it_witness :
  let s := run [Add 0 [] (Some (PyStr (lit "5-0")));
                Add 0 [] (Some (PyStr (lit "6-1")))] in
  fst (delete [PyBytes (lit "5-0")] s) = Ok 1 /\
  map key (_values (snd (delete [PyBytes (lit "5-0")] s))) = [mkKey 6 1] /\
  _max_deleted_id (snd (delete [PyBytes (lit "5-0")] s)) = mkKey 5 0.
Proof.
  destruct (delete_key_removes_it
              (run [Add 0 [] (Some (PyStr (lit "5-0")));
                    Add 0 [] (Some (PyStr (lit "6-1")))])
              (PyBytes (lit "5-0")) (mkKey 5 0) eq_refl eq_refl eq_refl)
    as (H1 & H2 & H3 & _).
  split; [exact H1|]. split; [exact (f_equal (map key) H2) | exact H3].
Defined.

Lemma length_remove_nth {A} (l : list A) : forall n,
  (n < length l)%nat -> length (remove_nth n l) = (length l - 1)%nat.
Proof.
  induction l as [|a l IH]; intros n H; [cbn in H; lia|].
  destruct n as [|n]; cbn [remove_nth length]; [lia|].
  rewrite IH by (cbn in H; lia). cbn in H. lia.
Qed.

Lemma delete_loop_count lst : forall res s,
  let r := delete_loop lst res s in
  len (snd r) <= len s /\
  match fst r with
  | Ok n => n - res = len s - len (snd r) /\
            0 <= n - res <= Z.of_nat (length lst)
  | Raise _ => True
  end.
Proof.
  induction lst as [|item rest IH]; intros res s; cbn [delete_loop length].
  - cbn [fst snd]. lia.
  - destruct (find_index_key_as_str s item) as [[ind found]|];
      [|cbn [fst snd]; lia].
    destruct found.
    2:{ specialize (IH res s). cbv zeta in IH.
        destruct (fst (delete_loop rest res s)); lia. }
    destruct (Py.index (_values s) ind); [|cbn [fst snd]; lia].
    unfold del_index. cbn [set_max_deleted_id _values].
    destruct (Z.leb_spec 0 (if ind <? 0
                            then ind + Z.of_nat (length (_values s)) else ind));
      [|cbn [andb fst snd]; unfold len, set_max_deleted_id; cbn [_values];
        split; [lia | exact I]].
    destruct (Z.ltb_spec (if ind <? 0
                          then ind + Z.of_nat (length (_values s)) else ind)
                         (Z.of_nat (length (_values s))));
      [|cbn [andb fst snd]; unfold len, set_max_deleted_id; cbn [_values];
        split; [lia | exact I]].
    cbn [andb].
    match goal with
    | |- context [delete_loop rest (res + 1) ?st] =>
        specialize (IH (res + 1) st); cbv zeta in IH;
        assert (Hl : len st = len s - 1);
        [ unfold len, set_values; cbn [_values];
          rewrite length_remove_nth by lia; lia |];
        rewrite Hl in IH;
        destruct (fst (delete_loop rest (res + 1) st)); lia
    end.
Qed.

(** X7: the number [delete] returns is the number of entries it removed
    from the log, and is at most the number of keys it was given; when
    [delete] raises, the log has not grown. *)
Theorem delete_returns_removed_count (lst : list pystr) (s : XStream) :
  len (snd (delete lst s)) <= len s /\
  match fst (delete lst s) with
  | Ok n => n = len s - len (snd (delete lst s)) /\
            0 <= n <= Z.of_nat (length lst)
  | Raise _ => True
  end.
Proof.
  unfold delete. pose proof (delete_loop_count lst 0 s) as H. cbv zeta in H.
  destruct H as [H1 H2]. split; [exact H1|].
  destruct (fst (delete_loop lst 0 s)); [lia | exact I].
Qed.

(** ** Counters kept by the log *)

Lemma delete_loop_max_deleted lst : forall res s,
  key_ltb (_max_deleted_id (snd (delete_loop lst res s))) (_max_deleted_id s)
  = false.
Proof.
  induction lst as [|item rest IH]; intros res s; cbn [delete_loop].
  - apply key_ltb_irrefl.
  - destruct (find_index_key_as_str s item) as [[ind found]|];
      [|apply key_ltb_irrefl].
    destruct found; [|apply IH].
    destruct (Py.index (_values s) ind) as [ent|]; [|apply key_ltb_irrefl].
    destruct (del_index _ ind).
    + eapply key_le_trans; [|apply IH].
      cbn [set_values set_max_deleted_id _max_deleted_id].
      apply key_max_ge_r.
    + cbn [snd set_max_deleted_id _max_deleted_id]. apply key_max_ge_r.
Qed.

(** X8: [_max_deleted_id] never goes down: [delete] leaves it at least
    where it was, and [add] and [trim] do not touch it, so the keys of
    entries removed by [trim] are not recorded in it. *)
Theorem max_deleted_id_monotone (o : op) (s : XStream) :
  key_ltb (_max_deleted_id (step s o)) (_max_deleted_id s) = false /\
  match o with
  | Delete _ => True
  | _ => _max_deleted_id (step s o) = _max_deleted_id s
  end.
Proof.
  assert (Hadd : forall now fs ek,
            _max_deleted_id (snd (add now fs ek s)) = _max_deleted_id s).
  { intros now fs ek. unfold add. destruct (negb _); [reflexivity|].
    destruct (resolve_key now ek s) as [[k|]|]; try reflexivity.
    destruct (match last_key s with Some l => key_gtb l k | None => false end);
      reflexivity. }
  assert (Htrim : forall m k l,
            _max_deleted_id (snd (trim m k l s)) = _max_deleted_id s).
  { intros m k l. unfold trim. destruct m, k as [k|]; try reflexivity.
    destruct (find_index_key_as_str s k); reflexivity. }
  destruct o as [now fs ek | lst | m k l]; cbn [step].
  - rewrite Hadd. split; [apply key_ltb_irrefl | reflexivity].
  - split; [apply delete_loop_max_deleted | exact I].
  - rewrite Htrim. split; [apply key_ltb_irrefl | reflexivity].
Qed.

Lemma add_len now fs ek s :
  len (snd (add now fs ek s)) - len s
  = _entries_added (snd (add now fs ek s)) - _entries_added s.
Proof.
  unfold add. destruct (negb _); [cbn [snd]; lia|].
  destruct (resolve_key now ek s) as [[k|]|]; try (cbn [snd]; lia).
  destruct (match last_key s with Some l => key_gtb l k | None => false end);
    cbn [snd]; [lia|].
  unfold len. cbn [_values _entries_added]. rewrite length_app.
  cbn [length]. lia.
Qed.

Lemma trim_len m k l s : len (snd (trim m k l s)) <= len s.
Proof.
  assert (G : forall n, len (set_values s (slice_from (_values s) n)) <= len s).
  { intros n. unfold len, set_values, slice_from. cbn [_values].
    rewrite length_skipn. lia. }
  unfold trim. destruct m, k as [k|]; cbn [snd]; try lia; try apply G.
  destruct (find_index_key_as_str s k); cbn [bind snd]; [apply G | lia].
Qed.

(** X9: in every log reached from the empty one by appends, deletions
    and trims, the number of stored entries is at most [_entries_added]. *)
Theorem length_at_most_entries_added (ops : list op) :
  0 <= len (run ops) <= _entries_added (run ops).
Proof.
  unfold run.
  assert (G : forall s, len s <= _entries_added s ->
                        len (fold_left step ops s)
                        <= _entries_added (fold_left step ops s)).
  { induction ops as [|o ops IH]; intros s H; [exact H|].
    cbn [fold_left]. apply IH. destruct o as [now fs ek | lst | m k l];
      cbn [step].
    - pose proof (add_len now fs ek s). lia.
    - pose proof (delete_loop_count lst 0 s) as [Hl _].
      pose proof (delete_loop_entries_added lst 0 s). unfold delete. lia.
    - pose proof (trim_len m k l s).
      pose proof (trim_entries_added m k l s). lia. }
  split; [unfold len; lia|]. apply G. cbn. lia.
Qed.

(** X10: when [add] returns a key, that key is what [last_item_key]
    returns right afterwards; on the empty log [last_item_key] is
    [b"0-0"]. *)
Theorem last_item_key_after_add
    (now : Z) (fs : list text) (entry_key : option pystr) (s : XStream) :
  last_item_key new_stream = lit "0-0" /\
  match fst (add now fs entry_key s) with
  | Ok (Some b) => last_item_key (snd (add now fs entry_key s)) = b
  | _ => True
  end.
Proof.
  split; [reflexivity|]. unfold add. destruct (negb _); [exact I|].
  destruct (resolve_key now entry_key s) as [[k|]|]; try exact I.
  destruct (match last_key s with Some l => key_gtb l k | None => false end);
    [exact I|].
  cbn [fst snd]. unfold last_item_key.
  now rewrite (last_key_snoc _ (_values s) (mkEntry k fs)).
Qed.

Lemma resolve_key_star now ek s :
  ek = None \/ (exists k, ek = Some k /\ as_str k = Ok (lit "*")) ->
  resolve_key now ek s
  = Ok (Some (mkKey now
                    match last_key s with
                    | Some l => if (ts l =? now) && (seq l >=? 0)
                                then seq l + 1 else 0
                    | None => 0
                    end)).
Proof.
  intros [-> | (k & -> & E)]; unfold resolve_key.
  - destruct (last_key s); reflexivity.
  - rewrite E. cbn [bind]. change (text_eqb (lit "*") (lit "*")) with true.
    cbv iota. destruct (last_key s); reflexivity.
Qed.

(** X11: with no key argument, or the argument ["*"], [add] takes the
    clock reading as timestamp.  It turns the entry down exactly when the
    last stored key has a greater timestamp (the clock went back);
    otherwise it appends under a key strictly greater than the last stored
    key: sequence [last.seq + 1] on an equal timestamp, else 0. *)
Theorem add_generated_key
    (now : Z) (fs : list text) (entry_key : option pystr) (s : XStream) :
  Z.of_nat (length fs) mod 2 = 0 ->
  entry_key = None \/
  (exists k, entry_key = Some k /\ as_str k = Ok (lit "*")) ->
  match last_key s with
  | None =>
      add now fs entry_key s
      = (Ok (Some (encode (mkKey now 0))), appended s (mkKey now 0) fs)
  | Some l =>
      if now <? ts l then add now fs entry_key s = (Ok None, s)
      else
        exists k',
          add now fs entry_key s = (Ok (Some (encode k')), appended s k' fs) /\
          ts k' = now /\ key_ltb l k' = true /\
          seq k' = (if (ts l =? now) && (seq l >=? 0) then seq l + 1 else 0)
  end.
Proof.
  intros Hf Hek.
  rewrite (add_resolved now fs entry_key s _ Hf (resolve_key_star now _ s Hek)).
  destruct (last_key s) as [l|]; [|reflexivity].
  unfold key_gtb, key_ltb. cbn [ts seq].
  destruct (Z.ltb_spec now (ts l)) as [Hlt|Hge]; [reflexivity|].
  destruct (Z.eqb_spec now (ts l)) as [E|E].
  - cbn [orb andb]. rewrite E, Z.eqb_refl. cbn [andb].
    destruct (Z.geb_spec (seq l) 0).
    + destruct (Z.ltb_spec (seq l + 1) (seq l)); [lia|].
      eexists. split; [reflexivity|]. cbn [ts seq].
      repeat split. rewrite Z.ltb_irrefl, Z.eqb_refl. cbn [orb andb]. lia.
    + destruct (Z.ltb_spec 0 (seq l)); [lia|].
      eexists. split; [reflexivity|]. cbn [ts seq].
      repeat split. rewrite Z.ltb_irrefl, Z.eqb_refl. cbn [orb andb]. lia.
  - cbn [orb andb].
    destruct (Z.eqb_spec (ts l) now) as [E'|_]; [lia|]. cbn [andb].
    eexists. split; [reflexivity|]. cbn [ts seq]. repeat split.
    destruct (Z.ltb_spec (ts l) now); [reflexivity | lia].
Qed.

Lemma add_generated_key_witness :
  exists k',
    add 7 [] None (appended new_stream (mkKey 7 3) [])
    = (Ok (Some (encode k')),
       appended (appended new_stream (mkKey 7 3) []) k' []) /\
    ts k' = 7 /\ key_ltb (mkKey 7 3) k' = true /\ seq k' = 4.
Proof.
  exact (add_generated_key 7 [] None (appended new_stream (mkKey 7 3) [])
           eq_refl (or_introl eq_refl)).
Defined.

(** ** Printing a key and reading it back *)

Lemma is_digit_chr d : 0 <= d < 10 -> is_digit (chr (48 + d)) = true.
Proof. intros H. apply is_digit_range. rewrite ord_chr; lia. Qed.

Lemma digit_val_chr d : 0 <= d < 10 -> digit_val (chr (48 + d)) = d.
Proof. intros H. unfold digit_val. rewrite ord_chr; lia. Qed.

Lemma numeric_snoc ds c :
  forallb is_digit ds = true -> is_digit c = true ->
  numeric (ds ++ [c]) = true.
Proof.
  intros Hd Hc. apply numeric_spec. split; [now destruct ds|].
  rewrite forallb_app, Hd. cbn. now rewrite Hc.
Qed.

Lemma digits_loop_step f n acc :
  digits_loop (S f) n acc
  = if n / 10 =? 0 then chr (48 + n mod 10) :: acc
    else digits_loop f (n / 10) (chr (48 + n mod 10) :: acc).
Proof. reflexivity. Qed.

Lemma digits_loop_numeric f : forall n acc,
  0 <= n < 2 ^ Z.of_nat (S f) ->
  exists ds, digits_loop (S f) n acc = ds ++ acc /\
             numeric ds = true /\ digits_value ds = n.
Proof.
  induction f as [|f IH]; intros n acc Hn.
  - change (2 ^ Z.of_nat 1) with 2 in Hn.
    assert (Hq : n / 10 = 0) by (apply Z.div_small; lia).
    assert (Hm : n mod 10 = n) by (apply Z.mod_small; lia).
    cbn [digits_loop]. rewrite Hq, Hm. cbn [Z.eqb].
    exists [chr (48 + n)]. split; [reflexivity|]. split.
    + cbn [numeric forallb]. now rewrite is_digit_chr by lia.
    + unfold digits_value. cbn [fold_left]. rewrite digit_val_chr; lia.
  - pose proof (Z.div_mod n 10 ltac:(lia)) as Hdm.
    pose proof (Z.mod_pos_bound n 10 ltac:(lia)) as Hmb.
    assert (Hq0 : 0 <= n / 10) by (apply Z.div_pos; lia).
    rewrite digits_loop_step. destruct (Z.eqb_spec (n / 10) 0) as [Hq|Hq].
    + exists [chr (48 + n mod 10)]. split; [reflexivity|]. split.
      * cbn [numeric forallb]. now rewrite is_digit_chr by lia.
      * unfold digits_value. cbn [fold_left]. rewrite digit_val_chr; lia.
    + destruct (IH (n / 10) (chr (48 + n mod 10) :: acc)) as (ds & E & Hd & Hv).
      { rewrite Nat2Z.inj_succ, Z.pow_succ_r in Hn by lia. lia. }
      exists (ds ++ [chr (48 + n mod 10)]). split; [|split].
      * rewrite E, <- app_assoc. reflexivity.
      * apply numeric_snoc; [now apply numeric_spec in Hd | now apply is_digit_chr].
      * rewrite digits_value_snoc, Hv, digit_val_chr; lia.
Qed.

Lemma str_of_int_numeric n :
  0 <= n ->
  numeric (str_of_int n) = true /\ digits_value (str_of_int n) = n.
Proof.
  intros Hn. unfold str_of_int. destruct (Z.ltb_spec n 0); [lia|].
  unfold digits_of.
  destruct (digits_loop_numeric (Z.to_nat (Z.log2 n)) n []) as (ds & E & Hd & Hv).
  - pose proof (Z.log2_nonneg n). rewrite Nat2Z.inj_succ, Z2Nat.id by lia.
    destruct (Z.eq_dec n 0) as [-> | Hnz]; [cbn; lia|].
    split; [lia|]. apply Z.log2_spec. lia.
  - rewrite E, app_nil_r. now split.
Qed.

Lemma digits_ascii ds :
  forallb is_digit ds = true -> forallb (fun c => ord c <? 128) ds = true.
Proof.
  induction ds as [|c ds IH]; [reflexivity|]. intros H.
  apply forallb_digit_cons in H as [Hc Hd]. cbn [forallb].
  rewrite (IH Hd), andb_true_r. apply is_digit_range in Hc. lia.
Qed.

Lemma parse_str_encode x :
  0 <= ts x -> 0 <= seq x ->
  parse_str (PyBytes (encode x)) = Ok x /\
  parse_str (PyStr (encode x)) = Ok x.
Proof.
  destruct x as [t q]. intros Ht Hq. cbn [ts seq] in *. unfold encode.
  cbn [ts seq].
  destruct (str_of_int_numeric t Ht) as [Nt Vt].
  destruct (str_of_int_numeric q Hq) as [Nq Vq].
  pose proof (numeric_no_dash _ Nt) as Dt.
  pose proof (numeric_no_dash _ Nq) as Dq.
  assert (P : forall kk, as_str kk = Ok (str_of_int t ++ "-"%char :: str_of_int q)
                         -> parse_str kk = Ok (mkKey t q)).
  { intros kk E. rewrite (parse_str_two (str_of_int t) (str_of_int q) [] kk);
      auto; [|now rewrite app_nil_r].
    rewrite !int_numeric by assumption. cbn [bind]. now rewrite Vt, Vq. }
  split; apply P; [|reflexivity].
  cbn [as_str]. unfold decode.
  apply numeric_spec in Nt as [_ Nt]. apply numeric_spec in Nq as [_ Nq].
  rewrite forallb_app. cbn [forallb].
  rewrite (digits_ascii _ Nt), (digits_ascii _ Nq). reflexivity.
Qed.

(** X12: a key with non-negative timestamp and sequence, encoded and
    parsed back (as [bytes] or as [str]), is the key itself; so two such
    keys with the same encoding are equal. *)
Theorem encode_parse_roundtrip (k k2 : StreamEntryKey) :
  0 <= ts k -> 0 <= seq k -> 0 <= ts k2 -> 0 <= seq k2 ->
  parse_str (PyBytes (encode k)) = Ok k /\
  parse_str (PyStr (encode k)) = Ok k /\
  (encode k = encode k2 -> k = k2).
Proof.
  intros Ht Hq Ht2 Hq2.
  destruct (parse_str_encode k Ht Hq) as [B S].
  destruct (parse_str_encode k2 Ht2 Hq2) as [B2 _].
  repeat split; try assumption.
  intros E. rewrite E in B. congruence.
Qed.

Lemma encode_parse_roundtrip_witness :
  parse_str (PyBytes (encode (mkKey 1700000000123 10)))
  = Ok (mkKey 1700000000123 10).
Proof.
  assert (H0 : 0 <= 1700000000123) by lia.
  assert (H1 : 0 <= 10) by lia.
  exact (proj1 (encode_parse_roundtrip (mkKey 1700000000123 10)
                  (mkKey 1700000000123 10) H0 H1 H0 H1)).
Defined.

Lemma int_raises s e : Py.int s = Raise e -> e = ValueError.
Proof.
  unfold Py.int.
  destruct (match strip s with
            | [] => (false, strip s)
            | c :: r => if Ascii.eqb c "+" then (false, r)
                        else if Ascii.eqb c "-" then (true, r)
                        else (false, strip s)
            end) as [neg s2].
  destruct (int_digits 0 false s2); [discriminate|]. congruence.
Qed.

Lemma parse_str_raises k e : parse_str k = Raise e -> e = ValueError.
Proof.
  unfold parse_str. destruct (as_str k) as [s|e'] eqn:E.
  - cbn [bind]. pose proof (split_dash_nonempty s) as Hne.
    destruct (split_dash s) as [|a [|b r]]; [congruence| |].
    + destruct (Py.int a) eqn:Ea; cbn [bind]; [discriminate|].
      intros H. inversion H; subst. now apply (int_raises a).
    + destruct (Py.int a) eqn:Ea; cbn [bind].
      * destruct (Py.int b) eqn:Eb; cbn [bind]; [discriminate|].
        intros H. inversion H; subst. now apply (int_raises b).
      * intros H. inversion H; subst. now apply (int_raises a).
  - cbn [bind]. intros H. inversion H; subst.
    destruct k as [b|s0]; cbn [as_str] in E; [|discriminate].
    unfold decode in E. destruct (forallb _ b); congruence.
Qed.

(** X13: [valid_key] never raises: it returns [True] when the key string
    parses and [False] whenever parsing fails, a failure of [parse_str]
    being always a [ValueError]. *)
Theorem valid_key_never_raises (k : pystr) :
  StreamRangeTest.valid_key k
  = Ok match parse_str k with
       | Ok _ => true
       | Raise _ => false
       end.
Proof.
  unfold StreamRangeTest.valid_key.
  destruct (parse_str k) as [x|e] eqn:E; [reflexivity|].
  now rewrite (parse_str_raises k e E).
Qed.

(** ** The registries of groups and consumers *)

Lemma text_eqb_neq a b : a <> b -> text_eqb a b = false.
Proof.
  intros H. destruct (text_eqb a b) eqn:E; [|reflexivity].
  apply text_eqb_eq in E. contradiction.
Qed.

Lemma dict_get_set_other {V} (d : dict V) k k' v :
  k' <> k -> dict_get (dict_set d k v) k' = dict_get d k'.
Proof.
  intros Hne. induction d as [|[k0 v0] d IH]; cbn [dict_set dict_get].
  - rewrite text_eqb_neq; [reflexivity | congruence].
  - destruct (text_eqb k0 k) eqn:E; cbn [dict_get].
    + apply text_eqb_eq in E. subst k0.
      rewrite text_eqb_neq; [reflexivity | congruence].
    + now rewrite IH.
Qed.

Lemma dict_del_set_fresh {V} (d : dict V) k v :
  dict_get d k = None -> dict_del (dict_set d k v) k = d.
Proof.
  induction d as [|[k0 v0] d IH]; cbn [dict_set dict_get dict_del].
  - now rewrite text_eqb_refl.
  - destruct (text_eqb k0 k) eqn:E; [discriminate|].
    intros H. cbn [dict_del]. now rewrite E, IH.
Qed.

Lemma dict_mem_set {V} (d : dict V) k v : dict_mem (dict_set d k v) k = true.
Proof. unfold dict_mem. now rewrite dict_get_set_same. Qed.

(** X14: a [group_add] that succeeds registers, under the given name, a
    fresh group whose start, last delivered and last acknowledged keys
    are the start key (the last stored key, or [0-0] on an empty log, for
    [b"$"]; the parsed key otherwise) with no consumers and nothing
    pending; other groups and the entries are untouched, and deleting the
    group again, when the name was new, gives back the stream as it was.
    A [group_add] that fails raises [ValueError] and changes nothing. *)
Theorem group_add_registers
    (gname : text) (start : pystr) (er : option Z) (s : XStream) :
  match fst (group_add gname start er s) with
  | Ok _ =>
      let s' := snd (group_add gname start er s) in
      (exists k,
         group_get s' gname = Some (mkGroup gname k er [] k k []) /\
         if eq_bytes start (lit "$")
         then k = match last_key s with Some l => l | None => mkKey 0 0 end
         else parse_str start = Ok k) /\
      (forall n', n' <> gname -> group_get s' n' = group_get s n') /\
      _values s' = _values s /\
      (group_get s gname = None -> group_delete gname s' = (1, s))
  | Raise e => e = ValueError /\ snd (group_add gname start er s) = s
  end.
Proof.
  unfold group_add.
  set (sk := if eq_bytes start (lit "$") then _ else _).
  assert (Hsk : match sk with
                | Ok k => if eq_bytes start (lit "$")
                          then k = match last_key s with
                                   | Some l => l | None => mkKey 0 0 end
                          else parse_str start = Ok k
                | Raise e => e = ValueError
                end).
  { unfold sk. destruct (eq_bytes start (lit "$")); [reflexivity|].
    destruct (parse_str start) eqn:E; [reflexivity|].
    now apply (parse_str_raises start). }
  destruct sk as [k|e]; cbn [fst snd]; [|now split].
  unfold group_get. cbn [_groups _values]. repeat split.
  - exists k. split; [apply dict_get_set_same | exact Hsk].
  - intros n' Hn. now apply dict_get_set_other.
  - intros Hfresh. unfold group_delete. cbn [_groups _values _max_deleted_id
      _entries_added].
    rewrite dict_mem_set, dict_del_set_fresh by exact Hfresh.
    now rewrite stream_eta.
Qed.

Lemma group_eta g :
  mkGroup (name g) (start_key g) (entries_read g) (consumers g)
          (last_delivered_key g) (last_ack_key g) (pel g) = g.
Proof. now destruct g. Qed.

Section Consumers.

Variables default_last_attempt default_last_success : Z.

(** X15: registering a consumer name that is new returns 1 and
    registering it again returns 0 and changes nothing; removing the
    consumer right after it was registered returns 0 pending entries and
    gives back the group as it was, and removing a name that is not
    registered returns 0 and changes nothing. *)
Theorem consumer_registration (c : text) (g : StreamGroup) :
  dict_get (consumers g) c = None ->
  let g1 := snd (add_consumer default_last_attempt default_last_success c g) in
  fst (add_consumer default_last_attempt default_last_success c g) = 1 /\
  add_consumer default_last_attempt default_last_success c g1 = (0, g1) /\
  del_consumer c g1 = (0, g) /\
  del_consumer c g = (0, g).
Proof.
  intros Hfresh g1. unfold g1, add_consumer, del_consumer, dict_mem.
  rewrite Hfresh. cbn [fst snd set_consumers consumers].
  rewrite dict_get_set_same. cbn [pending new_consumer].
  rewrite dict_del_set_fresh by exact Hfresh.
  unfold set_consumers.
  cbn [name start_key entries_read last_delivered_key last_ack_key pel].
  now rewrite group_eta.
Qed.

End Consumers.

Lemma consumer_registration_witness :
  let g := new_group (lit "g") (mkKey 0 0) None in
  fst (add_consumer 0 0 (lit "c1") g) = 1 /\
  add_consumer 0 0 (lit "c1") (snd (add_consumer 0 0 (lit "c1") g))
  = (0, snd (add_consumer 0 0 (lit "c1") g)) /\
  del_consumer (lit "c1") (snd (add_consumer 0 0 (lit "c1") g)) = (0, g) /\
  del_consumer (lit "c1") g = (0, g).
Proof.
  exact (consumer_registration 0 0 (lit "c1")
           (new_group (lit "g") (mkKey 0 0) None) eq_refl).
Defined.

(** ** What a group read changes *)

Lemma index_last_cases {A} (l : list A) :
  (l = [] /\ Py.index l (-1) = Raise IndexError) \/
  (exists l' a, l = l' ++ [a] /\ Py.index l (-1) = Ok a).
Proof.
  destruct l as [|x l0] using rev_ind; [left; now split|].
  right. exists l0, x. split; [reflexivity | apply index_snoc_last].
Qed.

Section GroupReadEffects.

Variables default_last_attempt default_last_success : Z.

(** The outcome of [group_read], branch by branch. *)
Lemma group_read_unfold now1 now2 stream c start_id count noack g :
  let g1 := if dict_mem (consumers g) c then g
            else set_consumers g
                   (dict_set (consumers g) c
                      (new_consumer default_last_attempt default_last_success c)) in
  let c0 := match dict_get (consumers g) c with
            | Some x => x
            | None => new_consumer default_last_attempt default_last_success c
            end in
  group_read default_last_attempt default_last_success now1 now2 stream c
             start_id count noack g
  = match (if eq_bytes start_id (lit ">") then Ok (last_delivered_key g)
           else k <- parse_str start_id ;;
                Ok (key_max k (last_delivered_key g))) with
    | Raise e => (Raise e, g1)
    | Ok from_key =>
        let items := stream_read stream from_key count in
        let n := Z.of_nat (length items) in
        (Ok (map format_record items),
         mkGroup (name g) (start_key g)
                 (match Py.index items (-1) with
                  | Ok _ => Some (or_zero (entries_read g) + n)
                  | Raise _ => entries_read g
                  end)
                 (dict_set (consumers g1) c
                           (mkConsumer (c_name c0) (pending c0 + n) now1 now2))
                 (match Py.index items (-1) with
                  | Ok it => key_max (last_delivered_key g) (key it)
                  | Raise _ => last_delivered_key g
                  end)
                 (last_ack_key g)
                 (if noack then pel g
                  else set_update (pel g) (map key items)))
    end.
Proof.
  intros g1 c0. unfold group_read. fold g1.
  assert (Hg : name g1 = name g /\ start_key g1 = start_key g /\
               entries_read g1 = entries_read g /\
               last_delivered_key g1 = last_delivered_key g /\
               last_ack_key g1 = last_ack_key g /\ pel g1 = pel g)
    by (unfold g1; destruct (dict_mem _ _); repeat split).
  destruct Hg as (E1 & E2 & E3 & E4 & E5 & E6).
  assert (Hc : dict_get (consumers g1) c = Some c0).
  { unfold g1, c0, dict_mem.
    destruct (dict_get (consumers g) c) as [x|] eqn:E; [exact E|].
    cbn [set_consumers consumers]. apply dict_get_set_same. }
  rewrite E1, E2, E3, E4, E5, E6.
  destruct (if eq_bytes start_id (lit ">") then Ok (last_delivered_key g)
            else k <- parse_str start_id;;
                 Ok (key_max k (last_delivered_key g))) as [from_key|e];
    [|reflexivity].
  cbv zeta. rewrite Hc.
  destruct (Py.index (stream_read stream from_key count) (-1)); reflexivity.
Qed.

(** X16: whatever its arguments and whether it returns or raises,
    [group_read] keeps the group's name, start key and last acknowledged
    key, never moves the last delivered key back, never removes a key from
    the pending set (and leaves the set as it is with [noack]), leaves the
    consumer registered, and does not touch the other consumers. *)
Theorem group_read_keeps
    (now1 now2 : Z) (stream : XStream) (c : text) (start_id : pystr)
    (count : option Z) (noack : bool) (g : StreamGroup) :
  let g' := snd (group_read default_last_attempt default_last_success
                   now1 now2 stream c start_id count noack g) in
  name g' = name g /\ start_key g' = start_key g /\
  last_ack_key g' = last_ack_key g /\
  key_ltb (last_delivered_key g') (last_delivered_key g) = false /\
  (forall k, In k (pel g) -> In k (pel g')) /\
  (if noack then pel g' = pel g else True) /\
  dict_mem (consumers g') c = true /\
  (forall c', c' <> c ->
     dict_get (consumers g') c' = dict_get (consumers g) c').
Proof.
  intros g'. unfold g'. rewrite group_read_unfold.
  set (g1 := if dict_mem (consumers g) c then g else _).
  assert (Hg : name g1 = name g /\ start_key g1 = start_key g /\
               last_delivered_key g1 = last_delivered_key g /\
               last_ack_key g1 = last_ack_key g /\ pel g1 = pel g)
    by (unfold g1; destruct (dict_mem _ _); repeat split).
  destruct Hg as (E1 & E2 & E4 & E5 & E6).
  assert (Hm : dict_mem (consumers g1) c = true).
  { unfold g1. destruct (dict_mem (consumers g) c) eqn:E; [exact E|].
    cbn [set_consumers consumers]. apply dict_mem_set. }
  assert (Ho : forall c', c' <> c ->
                 dict_get (consumers g1) c' = dict_get (consumers g) c').
  { intros c' Hne. unfold g1. destruct (dict_mem (consumers g) c);
      [reflexivity|].
    cbn [set_consumers consumers]. now apply dict_get_set_other. }
  destruct (if eq_bytes start_id (lit ">") then Ok (last_delivered_key g)
            else k <- parse_str start_id;;
                 Ok (key_max k (last_delivered_key g))) as [from_key|e];
    cbn [snd].
  - cbn [name start_key last_ack_key last_delivered_key pel consumers].
    repeat split.
    + destruct (Py.index _ (-1)); [apply key_max_ge_l | apply key_ltb_irrefl].
    + intros k Hk. destruct noack; [exact Hk|].
      apply set_update_incl. now left.
    + now destruct noack.
    + apply dict_mem_set.
    + intros c' Hne. rewrite dict_get_set_other by exact Hne. now apply Ho.
  - rewrite E1, E2, E4, E5, E6. repeat split; try assumption.
    + apply key_ltb_irrefl.
    + auto.
    + now destruct noack.
Qed.

(** X17: a [group_read] that returns [n] records leaves the consumer
    with its earlier pending count (0 for a consumer it had to create)
    plus [n], stamped with the two clock readings; it raises
    [entries_read] by [n] (an unknown count being taken as 0) when
    [n > 0] and leaves it as it is when nothing is returned; removing the
    consumer right afterwards returns that pending count. *)
Theorem group_read_accounting
    (now1 now2 : Z) (stream : XStream) (c : text) (start_id : pystr)
    (count : option Z) (noack : bool) (g : StreamGroup) :
  let r := group_read default_last_attempt default_last_success
             now1 now2 stream c start_id count noack g in
  let before := match dict_get (consumers g) c with
                | Some x => pending x
                | None => 0
                end in
  match fst r with
  | Ok records =>
      let n := Z.of_nat (length records) in
      (exists x, dict_get (consumers (snd r)) c = Some x /\
                 pending x = before + n /\
                 last_attempt x = now1 /\ last_success x = now2) /\
      entries_read (snd r)
      = (if n =? 0 then entries_read g
         else Some (or_zero (entries_read g) + n)) /\
      fst (del_consumer c (snd r)) = before + n
  | Raise _ => True
  end.
Proof.
  intros r before. unfold r. rewrite group_read_unfold.
  destruct (if eq_bytes start_id (lit ">") then Ok (last_delivered_key g)
            else k <- parse_str start_id;;
                 Ok (key_max k (last_delivered_key g))) as [from_key|e];
    [|exact I].
  cbv zeta. cbn [fst snd consumers entries_read]. rewrite length_map.
  set (items := stream_read stream from_key count).
  assert (Hb : pending match dict_get (consumers g) c with
                       | Some x => x
                       | None => new_consumer default_last_attempt
                                   default_last_success c
                       end = before).
  { unfold before. now destruct (dict_get (consumers g) c). }
  repeat split.
  - eexists. split; [apply dict_get_set_same|].
    cbn [pending last_attempt last_success]. rewrite Hb. now repeat split.
  - destruct (index_last_cases items) as [[E1 E2] | (l' & a & E1 & E2)];
      rewrite E2, E1.
    + reflexivity.
    + rewrite length_app. cbn [length].
      destruct (Z.eqb_spec (Z.of_nat (length l' + 1)) 0); [lia | reflexivity].
  - unfold del_consumer. cbn [consumers]. rewrite dict_get_set_same.
    cbn [fst pending]. now rewrite Hb.
Qed.

(** X18: on a log with strictly increasing keys, a [group_read] from an
    explicit start id (any id but [b">"] that parses) returns only
    entries whose key is greater than both the start id and the key last
    delivered before the call; unless [noack], each returned key is in
    the pending set afterwards. *)
Theorem group_read_from_id
    (now1 now2 : Z) (stream : XStream) (c : text) (start_id : pystr)
    (k : StreamEntryKey) (count : option Z) (noack : bool) (g : StreamGroup) :
  strictly_increasing (keys stream) = true ->
  eq_bytes start_id (lit ">") = false -> parse_str start_id = Ok k ->
  let r := group_read default_last_attempt default_last_success
             now1 now2 stream c start_id count noack g in
  exists items,
    fst r = Ok (map format_record items) /\
    Forall (fun e => key_ltb k (key e) = true /\
                     key_ltb (last_delivered_key g) (key e) = true /\
                     (noack = false -> In (key e) (pel (snd r)))) items.
Proof.
  intros Hs Hid Hp r. unfold r. rewrite group_read_unfold, Hid, Hp.
  cbn [bind]. cbv zeta. cbn [fst snd pel].
  set (from := key_max k (last_delivered_key g)).
  pose proof (stream_read_after stream from count Hs) as Hr.
  exists (stream_read stream from count). split; [reflexivity|].
  rewrite Forall_forall in *. intros e He. specialize (Hr e He).
  repeat split.
  - apply (key_le_ltb_trans _ from); [apply key_max_ge_l | exact Hr].
  - apply (key_le_ltb_trans _ from); [apply key_max_ge_r | exact Hr].
  - intros ->. apply set_update_incl. right. now apply in_map.
Qed.

End GroupReadEffects.

Lemma group_read_from_id_witness :
  let s := run [Add 0 [] (Some (PyStr (lit "5-0")));
                Add 0 [] (Some (PyStr (lit "6-1")))] in
  let g := new_group (lit "g") (mkKey 0 0) None in
  exists items,
    fst (group_read 0 0 1 1 s (lit "c1") (PyBytes (lit "5")) None false g)
    = Ok (map format_record items) /\
    Forall (fun e => key_ltb (mkKey 5 0) (key e) = true /\
                     key_ltb (mkKey 0 0) (key e) = true /\
                     (false = false ->
                      In (key e)
                         (pel (snd (group_read 0 0 1 1 s (lit "c1")
                                      (PyBytes (lit "5")) None false g)))))
           items.
Proof.
  exact (group_read_from_id 0 0 1 1
           (run [Add 0 [] (Some (PyStr (lit "5-0")));
                 Add 0 [] (Some (PyStr (lit "6-1")))])
           (lit "c1") (PyBytes (lit "5")) (mkKey 5 0) None false
           (new_group (lit "g") (mkKey 0 0) None) eq_refl eq_refl eq_refl).
Defined.

(** ** A group placed at the end of the log *)

Lemma non_decreasing_last ks l :
  non_decreasing (ks ++ [l]) = true ->
  Forall (fun y => key_ltb l y = false) (ks ++ [l]).
Proof.
  induction ks as [|a ks IH]; intros H.
  - constructor; [apply key_ltb_irrefl | constructor].
  - cbn [app] in *. destruct (non_decreasing_cons _ _ H) as [Hr Hall].
    constructor; [|now apply IH].
    rewrite Forall_app in Hall. destruct Hall as [_ Hl]. now inversion Hl.
Qed.

Lemma nothing_after_last s :
  non_decreasing (keys s) = true ->
  Forall (fun e => key_ltb match last_key s with
                           | Some l => l
                           | None => mkKey 0 0
                           end (key e) = false) (_values s).
Proof.
  intros Hs. destruct (values_cases s) as [E | (vs & e & E)].
  - rewrite E. constructor.
  - rewrite (last_key_snoc s vs e E). unfold keys in Hs. rewrite E in *.
    rewrite map_app in Hs. cbn [map] in Hs.
    apply non_decreasing_last in Hs.
    replace (map key vs ++ [key e]) with (map key (vs ++ [e])) in Hs
      by now rewrite map_app.
    now rewrite Forall_map in Hs.
Qed.

Lemma appended_strictly_increasing s k fs :
  strictly_increasing (keys s) = true ->
  key_ltb match last_key s with
          | Some l => l
          | None => mkKey 0 0
          end k = true ->
  strictly_increasing (keys (appended s k fs)) = true.
Proof.
  intros Hs Hk. unfold keys, appended in *. cbn [_values].
  rewrite map_app. cbn [map key].
  destruct (values_cases s) as [E | (vs & e & E)].
  - now rewrite E.
  - rewrite (last_key_snoc s vs e E) in Hk. rewrite E, map_app in *.
    cbn [map] in *. now apply strictly_increasing_snoc.
Qed.

Section GroupAtEnd.

Variables default_last_attempt default_last_success : Z.

(** X19: a group registered with [b"$"] on a log with strictly
    increasing keys starts at the last stored key ([0-0] on an empty
    log): its first read of new messages returns nothing, and once an
    entry with a greater key has been appended, the next read (with no
    count, or a count of at least 1) returns exactly that entry. *)
Theorem group_at_end_reads_only_new
    (now1 now2 now3 now4 : Z) (s : XStream) (gname c : text)
    (er : option Z) (count : option Z) (noack : bool)
    (k : StreamEntryKey) (fs : list text) :
  strictly_increasing (keys s) = true ->
  match count with Some n => 1 <= n | None => True end ->
  let k0 := match last_key s with Some l => l | None => mkKey 0 0 end in
  key_ltb k0 k = true ->
  let g0 := mkGroup gname k0 er [] k0 k0 [] in
  let read := group_read default_last_attempt default_last_success in
  group_get (snd (group_add gname (PyBytes (lit "$")) er s)) gname = Some g0 /\
  fst (read now1 now2 s c (PyBytes (lit ">")) count noack g0) = Ok [] /\
  fst (read now3 now4 (appended s k fs) c (PyBytes (lit ">")) count noack
            (snd (read now1 now2 s c (PyBytes (lit ">")) count noack g0)))
  = Ok [(encode k, fs)].
Proof.
  intros Hs Hc k0 Hk g0 read.
  assert (Hc0 : match count with Some n => 0 <= n | None => True end)
    by (destruct count; [lia | exact I]).
  assert (E1 : stream_read s k0 count = []).
  { rewrite (stream_read_filter s k0 count Hs Hc0). cbv zeta.
    rewrite filter_all_false
      by (apply nothing_after_last;
          now apply strictly_increasing_non_decreasing).
    destruct count; [apply firstn_nil | reflexivity]. }
  assert (E2 : stream_read (appended s k fs) k0 count = [mkEntry k fs]).
  { rewrite (stream_read_filter _ k0 count
               (appended_strictly_increasing s k fs Hs Hk) Hc0).
    cbv zeta. unfold appended. cbn [_values]. rewrite filter_app.
    rewrite filter_all_false
      by (apply nothing_after_last;
          now apply strictly_increasing_non_decreasing).
    cbn [filter key app]. fold k0. rewrite Hk.
    destruct count as [n|]; [|reflexivity].
    replace (Z.to_nat n) with (S (Z.to_nat (n - 1))) by lia.
    cbn [firstn]. now rewrite firstn_nil. }
  split; [|split].
  - unfold group_add, group_get.
    change (eq_bytes (PyBytes (lit "$")) (lit "$")) with true. cbv iota.
    cbn [snd _groups]. apply dict_get_set_same.
  - unfold read. rewrite group_read_unfold.
    change (eq_bytes (PyBytes (lit ">")) (lit ">")) with true. cbv iota zeta.
    change (last_delivered_key g0) with k0. rewrite E1. reflexivity.
  - unfold read. rewrite (group_read_unfold _ _ now1).
    change (eq_bytes (PyBytes (lit ">")) (lit ">")) with true. cbv iota zeta.
    change (last_delivered_key g0) with k0. rewrite E1.
    change (Py.index (@nil StreamEntry) (-1))
      with (@Raise StreamEntry IndexError). cbv iota. cbn [snd].
    rewrite group_read_unfold.
    change (eq_bytes (PyBytes (lit ">")) (lit ">")) with true. cbv iota zeta.
    cbn [last_delivered_key]. rewrite E2. reflexivity.
Qed.

End GroupAtEnd.

Lemma group_at_end_reads_only_new_witness :
  let s := run [Add 0 [] (Some (PyStr (lit "5-0")));
                Add 0 [] (Some (PyStr (lit "6-1")))] in
  let g0 := mkGroup (lit "g") (mkKey 6 1) None [] (mkKey 6 1) (mkKey 6 1) [] in
  group_get (snd (group_add (lit "g") (PyBytes (lit "$")) None s)) (lit "g")
  = Some g0 /\
  fst (group_read 0 0 1 1 s (lit "c1") (PyBytes (lit ">")) (Some 10) false g0)
  = Ok [] /\
  fst (group_read 0 0 2 2 (appended s (mkKey 7 0) [lit "a"; lit "1"])
         (lit "c1") (PyBytes (lit ">")) (Some 10) false
         (snd (group_read 0 0 1 1 s (lit "c1") (PyBytes (lit ">"))
                 (Some 10) false g0)))
  = Ok [(lit "7-0", [lit "a"; lit "1"])].
Proof.
  assert (H : 1 <= 10) by lia.
  exact (group_at_end_reads_only_new 0 0 1 1 2 2
           (run [Add 0 [] (Some (PyStr (lit "5-0")));
                 Add 0 [] (Some (PyStr (lit "6-1")))])
           (lit "g") (lit "c1") None (Some 10) false (mkKey 7 0)
           [lit "a"; lit "1"] eq_refl H eq_refl).
Defined.

(** ** Repositioning a group *)

(** X20: [set_id] with an id that parses and a read count that is absent
    or not negative: on an empty log it raises [IndexError], after the
    start key and the read count were already overwritten; on any other
    log it returns, sets the start key and the read count, and moves the
    last delivered key to the key of a stored entry.  The consumers, the
    pending set and the last acknowledged key are kept. *)
Theorem set_id_positions
    (stream : XStream) (id : pystr) (k : StreamEntryKey) (er : option Z)
    (g : StreamGroup) :
  parse_ts_seq id = Ok k ->
  match er with Some n => 0 <= n | None => True end ->
  if len stream =? 0
  then set_id stream id er g
       = (Raise IndexError,
          mkGroup (name g) k er (consumers g) (last_delivered_key g)
                  (last_ack_key g) (pel g))
  else exists e,
         In e (_values stream) /\
         set_id stream id er g
         = (Ok tt,
            mkGroup (name g) k er (consumers g) (key e) (last_ack_key g)
                    (pel g)).
Proof.
  intros Hp Her. unfold set_id, getitem. rewrite Hp, find_index_left.
  pose proof (bisect_left_bounds key_ltb (keys stream) k) as Hb.
  rewrite len_keys in Hb.
  set (i := Z.min (bisect_left key_ltb (keys stream) k + or_zero er)
                  (len stream - 1)).
  assert (Hz : 0 <= or_zero er) by (destruct er; cbn [or_zero]; lia).
  destruct (Z.eqb_spec (len stream) 0) as [E|E].
  - assert (Hi : i = -1) by (unfold i; lia).
    rewrite Hi. unfold len in E. destruct (_values stream); [|discriminate].
    reflexivity.
  - assert (Hi : 0 <= i < Z.of_nat (length (_values stream)))
      by (unfold i, len in *; lia).
    destruct (_values stream) as [|d0 vs] eqn:Ev; [cbn in Hi; lia|].
    rewrite <- Ev in *. rewrite (index_in_range _ i d0 Hi).
    exists (nth (Z.to_nat i) (_values stream) d0). split; [|reflexivity].
    apply nth_In. lia.
Qed.

Lemma set_id_positions_witness :
  let s := run [Add 0 [] (Some (PyStr (lit "5-0")));
                Add 0 [] (Some (PyStr (lit "6-1")))] in
  let g := new_group (lit "g") (mkKey 0 0) None in
  exists e,
    In e (_values s) /\
    set_id s (PyBytes (lit "5")) (Some 9) g
    = (Ok tt,
       mkGroup (lit "g") (mkKey 5 0) (Some 9) [] (key e) (mkKey 0 0) []).
Proof.
  assert (H : 0 <= 9) by lia.
  exact (set_id_positions
           (run [Add 0 [] (Some (PyStr (lit "5-0")));
                 Add 0 [] (Some (PyStr (lit "6-1")))])
           (PyBytes (lit "5")) (mkKey 5 0) (Some 9)
           (new_group (lit "g") (mkKey 0 0) None) eq_refl H).
Defined.

(** ** The summaries *)

Lemma group_info_returns stream g :
  exists info, group_info stream g = Ok info.
Proof.
  unfold group_info. rewrite !find_index_left.
  destruct (_ >? len stream) eqn:Hgt.
  - destruct (entries_read g) as [n|] eqn:Her; [eexists; reflexivity|].
    exfalso. cbn [or_zero] in Hgt.
    pose proof (bisect_left_bounds key_ltb (keys stream) (start_key g)).
    rewrite len_keys in *. lia.
  - eexists. reflexivity.
Qed.

Lemma map_result_returns {A B} (f : A -> result B) l :
  (forall a, exists b, f a = Ok b) ->
  exists bs, map_result f l = Ok bs /\ length bs = length l.
Proof.
  intros Hf. induction l as [|a l (bs & E & Hl)].
  - now exists [].
  - destruct (Hf a) as (b & Eb). exists (b :: bs).
    cbn [map_result]. rewrite Eb, E. cbn [bind length]. now rewrite Hl.
Qed.

(** X21: [stream_info] and [groups_info] never raise, for any stream and
    any groups.  [stream_info] reports the number of stored entries and
    [_entries_added]; the first and last entries formatted, or nothing
    for either on an empty log, whose recorded first id is then
    [b"0-0"]; the number of groups, or with [full] one summary per group
    and every entry formatted. *)
Theorem stream_info_returns (full : bool) (s : XStream) :
  (exists gs, groups_info s = Ok gs /\ length gs = length (_groups s)) /\
  exists info,
    stream_info full s = Ok info /\
    info_length info = len s /\
    info_entries_added info = _entries_added s /\
    info_max_deleted_entry_id info = encode (_max_deleted_id s) /\
    info_first_entry info = option_map format_record (hd_error (_values s)) /\
    info_last_entry info
    = option_map format_record (hd_error (rev (_values s))) /\
    info_recorded_first_entry_id info
    = match _values s with
      | e :: _ => encode (key e)
      | [] => lit "0-0"
      end /\
    match info_groups info with
    | inl n => full = false /\ n = Z.of_nat (length (_groups s)) /\
               info_entries info = None
    | inr gs => full = true /\ length gs = length (_groups s) /\
                info_entries info = Some (stream_iter s)
    end.
Proof.
  destruct (map_result_returns (fun ng => group_info s (snd ng)) (_groups s))
    as (gs & Eg & Hl).
  { intros ng. apply group_info_returns. }
  split; [exists gs; now split|].
  unfold stream_info. rewrite Eg.
  destruct (values_cases s) as [E | (vs & e & E)].
  - unfold len. rewrite E. cbn [length Z.of_nat Z.ltb Z.compare bind].
    destruct full; eexists; cbn [info_groups info_length info_entries_added
      info_max_deleted_entry_id info_first_entry info_last_entry
      info_recorded_first_entry_id info_entries hd_error rev option_map];
      unfold stream_iter; rewrite ?E; repeat split; assumption.
  - assert (Hpos : (0 <? len s) = true).
    { apply Z.ltb_lt. unfold len. rewrite E, length_app. cbn [length]. lia. }
    rewrite Hpos.
    assert (H0 : exists e0, Py.index (_values s) 0 = Ok e0 /\
                            hd_error (_values s) = Some e0).
    { rewrite E. destruct vs as [|v vs'].
      - exists e. now split.
      - exists v. now split. }
    destruct H0 as (e0 & H0 & Hh).
    assert (H1 : Py.index (_values s) (-1) = Ok e)
      by (rewrite E; apply index_snoc_last).
    rewrite H0, Hh, H1. cbn [bind].
    assert (Hr : hd_error (rev (_values s)) = Some e)
      by (rewrite E, rev_app_distr; reflexivity).
    assert (Hf : match _values s with
                 | [] => lit "0-0"
                 | e1 :: _ => encode (key e1)
                 end = encode (key e0))
      by (destruct (_values s); [discriminate | now inversion Hh]).
    destruct full; eexists; cbn [info_groups info_length info_entries_added
      info_max_deleted_entry_id info_first_entry info_last_entry
      info_recorded_first_entry_id info_entries option_map];
      rewrite ?Hr, ?Hf; cbn [option_map]; repeat split; assumption.
Qed.

(** ** Range bounds from their text *)

Lemma encode_head k :
  0 <= ts k ->
  exists c r, encode k = c :: r /\ is_digit c = true.
Proof.
  intros Ht. unfold encode.
  destruct (str_of_int_numeric (ts k) Ht) as [Nt _].
  apply numeric_spec in Nt as [Hne Hd].
  destruct (str_of_int (ts k)) as [|c r]; [congruence|].
  apply forallb_digit_cons in Hd as [Hc _].
  exists c, (r ++ "-"%char :: str_of_int (seq k)). now split.
Qed.

(** X22: for a key with non-negative timestamp and sequence,
    [StreamRangeTest.decode] of its encoding is the bound at that key with
    the exclusive flag it was given, and of ["("] followed by its encoding
    the exclusive bound at that key; a lone [b"("] and the empty string
    raise [ValueError]. *)
Theorem range_bound_of_encoded_key (k : StreamEntryKey) (ex : bool) :
  0 <= ts k -> 0 <= seq k ->
  StreamRangeTest.decode (encode k) ex
  = Ok (StreamRangeTest.mk (KeyValue k) ex) /\
  StreamRangeTest.decode ("("%char :: encode k) ex
  = Ok (StreamRangeTest.mk (KeyValue k) true) /\
  StreamRangeTest.decode (lit "(") ex = Raise ValueError /\
  StreamRangeTest.decode (lit "") ex = Raise ValueError.
Proof.
  intros Ht Hq. destruct (parse_str_encode k Ht Hq) as [B _].
  destruct (encode_head k Ht) as (c & r & E & Hc).
  repeat split.
  - unfold StreamRangeTest.decode. rewrite E in *.
    cbn [text_eqb lit list_ascii_of_string].
    rewrite !(digit_not_char c) by (assumption || reflexivity).
    cbn [andb]. now rewrite B.
  - unfold StreamRangeTest.decode. cbn [text_eqb lit list_ascii_of_string].
    change (Ascii.eqb "(" "-") with false. change (Ascii.eqb "(" "+") with false.
    cbn [andb]. change (Ascii.eqb "(" "(") with true. cbv iota.
    now rewrite B.
Qed.

Lemma range_bound_of_encoded_key_witness :
  StreamRangeTest.decode (lit "5-3") false
  = Ok (StreamRangeTest.mk (KeyValue (mkKey 5 3)) false) /\
  StreamRangeTest.decode (lit "(5-3") false
  = Ok (StreamRangeTest.mk (KeyValue (mkKey 5 3)) true) /\
  StreamRangeTest.decode (lit "(") false = Raise ValueError /\
  StreamRangeTest.decode (lit "") false = Raise ValueError.
Proof.
  assert (H5 : 0 <= 5) by lia. assert (H3 : 0 <= 3) by lia.
  exact (range_bound_of_encoded_key (mkKey 5 3) false H5 H3).
Defined.

(** ** Order kept step by step *)

(** X29: a log whose keys strictly increase keeps them strictly
    increasing through any [delete] and any [trim], and through any [add]
    unless the key that [add] resolves is the last stored key. *)
Theorem step_keeps_strictly_increasing (o : op) (s : XStream) :
  strictly_increasing (keys s) = true ->
  match o with
  | Add now fs entry_key =>
      forall k, resolve_key now entry_key s = Ok (Some k) ->
                last_key s <> Some k
  | _ => True
  end ->
  strictly_increasing (keys (step s o)) = true.
Proof.
  intros Hs Ho. destruct o as [now fs ek | lst | m k l]; cbn [step].
  - now apply add_strictly_increasing.
  - now apply delete_loop_strictly_increasing.
  - now apply trim_strictly_increasing.
Qed.

Lemma step_keeps_strictly_increasing_witness :
  strictly_increasing
    (keys (step (appended new_stream (mkKey 5 0) [])
                (Add 0 [] (Some (PyStr (lit "5-*")))))) = true.
Proof.
  apply (step_keeps_strictly_increasing
           (Add 0 [] (Some (PyStr (lit "5-*"))))
           (appended new_stream (mkKey 5 0) []) eq_refl).
  intros k Hk. vm_compute in Hk. inversion Hk. vm_compute. discriminate.
Defined.

(** ** Instances *)

Lemma trim_max_length_witness :
  trim (Some 1) None None (appended (appended new_stream (mkKey 1 0) [])
                                    (mkKey 2 0) [])
  = (Ok 1, set_values (appended (appended new_stream (mkKey 1 0) [])
                                (mkKey 2 0) [])
                      [mkEntry (mkKey 2 0) []]).
Proof.
  assert (H : 0 <= 1) by lia.
  exact (proj1 (trim_max_length 1
                  (appended (appended new_stream (mkKey 1 0) []) (mkKey 2 0) [])
                  H)).
Defined.

Lemma trim_min_key_witness :
  trim None (Some (PyBytes (lit "2"))) None
       (appended (appended new_stream (mkKey 1 0) []) (mkKey 2 0) [])
  = (Ok 1, set_values (appended (appended new_stream (mkKey 1 0) [])
                                (mkKey 2 0) [])
                      [mkEntry (mkKey 2 0) []]).
Proof.
  exact (proj1 (trim_min_key (PyBytes (lit "2")) (mkKey 2 0)
                  (appended (appended new_stream (mkKey 1 0) []) (mkKey 2 0) [])
                  eq_refl eq_refl eq_refl)).
Defined.

Lemma trim_max_length_limit_witness :
  trim (Some 0) None (Some 1)
       (appended (appended new_stream (mkKey 1 0) []) (mkKey 2 0) [])
  = (Ok 1, set_values (appended (appended new_stream (mkKey 1 0) [])
                                (mkKey 2 0) [])
                      [mkEntry (mkKey 2 0) []]).
Proof.
  assert (H : 0 <= 0 <= len (appended (appended new_stream (mkKey 1 0) [])
                                      (mkKey 2 0) []))
    by (vm_compute; split; discriminate).
  assert (H1 : 0 <= 1) by lia.
  exact (proj1 (trim_max_length_limit 0 1
                  (appended (appended new_stream (mkKey 1 0) []) (mkKey 2 0) [])
                  H H1)).
Defined.

Lemma group_read_new_keys_witness :
  let s := appended (appended new_stream (mkKey 1 0) []) (mkKey 2 0) [] in
  let g := new_group (lit "g") (mkKey 1 0) None in
  exists items,
    fst (group_read 0 0 1 1 s (lit "c1") (PyBytes (lit ">")) None false g)
    = Ok (map format_record items) /\
    Forall (fun e =>
              key_ltb (mkKey 1 0) (key e) = true /\
              In (key e)
                 (pel (snd (group_read 0 0 1 1 s (lit "c1")
                              (PyBytes (lit ">")) None false g)))) items /\
    key_ltb (last_delivered_key
               (snd (group_read 0 0 1 1 s (lit "c1") (PyBytes (lit ">"))
                       None false g)))
            (mkKey 1 0) = false.
Proof.
  exact (group_read_new_keys 0 0 1 1
           (appended (appended new_stream (mkKey 1 0) []) (mkKey 2 0) [])
           (lit "c1") None (new_group (lit "g") (mkKey 1 0) None) eq_refl).
Defined.

Lemma add_smaller_key_rejected_witness :
  add 0 [] (Some (PyBytes (lit "4-7"))) (appended new_stream (mkKey 5 0) [])
  = (Ok None, appended new_stream (mkKey 5 0) []).
Proof.
  exact (add_smaller_key_rejected 0 [] (Some (PyBytes (lit "4-7")))
           (appended new_stream (mkKey 5 0) []) (mkKey 4 7) (mkKey 5 0)
           eq_refl eq_refl eq_refl eq_refl).
Defined.
